(** * Studio-Guidato-Interno: event normalisation and process-mining features

    A shallow embedding of [data_collection.clean_data] and of the feature
    extraction stage of [process_mining.py], with the properties of the
    natural-language specification stated over it.

    Conventions of the embedding.
    - A pandas DataFrame is the list of its rows, in positional order.  The
      tables handled here carry the nine [CSV_HEADERS] columns that
      [process_files] always writes, so the three [in df.columns] tests of
      [clean_data] succeed and are not repeated in the model.
    - A timestamp is a number of seconds ([Z]); the null timestamp [NaT] is
      [None].  Durations in seconds are [Z], the null duration is [None].
      The cells of [id_repo] and [name_repo] are never null.
    - Python floats that are quotients of integers are exact rationals ([Q]).
    - Library calls (pandas, pm4py) are modelled by what they compute on
      these tables; each such definition names the call it stands for. *)

From Stdlib Require Import QArith Ascii.
From stdpp Require Import gmap strings list fin_maps sorting pretty.

Local Open Scope Z_scope.

#[local] Set Warnings "-clear-no-such-hyp".

(** ** Rows of the event table *)

(** One row of an event table.  [C] is the type of the cells of column
    [created_at] (text before [pd.to_datetime], a timestamp after), [D] the
    type of the cells of column [time_diff] ([unit] while the column does
    not exist). *)
Record Row (C D : Type) : Type := mkRow {
  type_event : string;
  id_actor : Z;
  login_actor : string;
  url_actor : string;
  url_repo : string;
  id_repo : Z;
  name_repo : string;
  action_payload : option string;
  created_at : C;
  time_diff : D
}.

Arguments mkRow {C D}.
Arguments type_event {C D}.
Arguments id_actor {C D}.
Arguments login_actor {C D}.
Arguments url_actor {C D}.
Arguments url_repo {C D}.
Arguments id_repo {C D}.
Arguments name_repo {C D}.
Arguments action_payload {C D}.
Arguments created_at {C D}.
Arguments time_diff {C D}.

(** A timestamp cell: [None] is [NaT]. *)
Abbreviation Timestamp := (option Z).

(** A row as the conversion stage writes it. *)
Abbreviation RawEvent := (Row string unit).

(** A row of the table [clean_data] returns. *)
Abbreviation NormalizedEvent := (Row Timestamp (option Z)).

Definition set_created_at {C C' D} (c : C') (r : Row C D) : Row C' D :=
  mkRow (type_event r) (id_actor r) (login_actor r) (url_actor r) (url_repo r)
        (id_repo r) (name_repo r) (action_payload r) c (time_diff r).

Definition set_time_diff {C D D'} (d : D') (r : Row C D) : Row C D' :=
  mkRow (type_event r) (id_actor r) (login_actor r) (url_actor r) (url_repo r)
        (id_repo r) (name_repo r) (action_payload r) (created_at r) d.

Definition set_type_event {C D} (t : string) (r : Row C D) : Row C D :=
  mkRow t (id_actor r) (login_actor r) (url_actor r) (url_repo r)
        (id_repo r) (name_repo r) (action_payload r) (created_at r)
        (time_diff r).

(** ** A stable sort

    Stands for the sorts of pandas.  [DataFrame.sort_values] on several
    columns goes through a lexicographic index sort that keeps rows with
    equal keys in their input order; a stable sort on a total preorder has
    one possible result, computed here by insertion. *)
Section StableSort.
Context {A : Type} (R : relation A) `{!RelDecision R}.

Fixpoint insert_sorted (x : A) (l : list A) : list A :=
  match l with
  | [] => [x]
  | y :: l' => if decide (R x y) then x :: l else y :: insert_sorted x l'
  end.

Fixpoint stable_sort (l : list A) : list A :=
  match l with
  | [] => []
  | x :: l' => insert_sorted x (stable_sort l')
  end.

End StableSort.

(** ** The Event Normalizer ([data_collection.clean_data]) *)

(** Ascending order of timestamps with [na_position='last']. *)
Definition ts_le (a b : Timestamp) : Prop :=
  match a, b with
  | Some x, Some y => x ≤ y
  | _, None => True
  | None, Some _ => False
  end.

#[global] Instance ts_le_dec : RelDecision ts_le.
Proof. intros [x|] [y|]; simpl; apply _. Defined.

(** Lexicographic order on the sort key [['id_repo', 'created_at']]. *)
Definition key_le {D} (r1 r2 : Row Timestamp D) : Prop :=
  id_repo r1 < id_repo r2
  ∨ (id_repo r1 = id_repo r2 ∧ ts_le (created_at r1) (created_at r2)).

#[global] Instance key_le_dec {D} : RelDecision (@key_le D).
Proof. intros r1 r2. unfold key_le. apply _. Defined.

(** [df.sort_values(by=['id_repo', 'created_at'])]. *)
Definition sort_values_id_repo_created_at {D}
    (df : list (Row Timestamp D)) : list (Row Timestamp D) :=
  stable_sort key_le df.

(** Difference of two timestamps, null as soon as one of them is. *)
Definition ts_sub (cur prev : Timestamp) : option Z :=
  match cur, prev with
  | Some c, Some p => Some (c - p)
  | _, _ => None
  end.

(** [df.groupby('id_repo')['created_at'].diff().dt.total_seconds()]: each
    row gets the difference with the previous row of the table that has the
    same [id_repo], null when there is none.  [last] maps a repository to
    the timestamp of its latest row seen so far. *)
Fixpoint groupby_diff {D} (last : gmap Z Timestamp)
    (df : list (Row Timestamp D)) : list (option Z) :=
  match df with
  | [] => []
  | r :: df' =>
      match last !! id_repo r with
      | None => None
      | Some prev => ts_sub (created_at r) prev
      end :: groupby_diff (<[id_repo r := created_at r]> last) df'
  end.

(** [df['time_diff'] = ...]: the new column is laid along the rows. *)
Definition assign_time_diff {D} (df : list (Row Timestamp D))
    (col : list (option Z)) : list NormalizedEvent :=
  zip_with (λ r d, set_time_diff d r) df col.

(** The row function of [df.apply(lambda row: ..., axis=1)]. *)
Definition relabel_row {C D} (row : Row C D) : string :=
  if bool_decide (type_event row = "WatchEvent"
                  ∧ action_payload row = Some "started")
  then "StarEvent"
  else type_event row.

(** [df['type_event'] = df.apply(..., axis=1)]. *)
Definition relabel {C D} (df : list (Row C D)) : list (Row C D) :=
  (λ row, set_type_event (relabel_row row) row) <$> df.

Section Normalizer.
(** [pd.to_datetime(..., errors='coerce')] on one cell: the timestamp the
    text denotes, [None] ([NaT]) when it denotes none. *)
Variable to_datetime : string → Timestamp.

Definition convert_created_at (df : list RawEvent) : list (Row Timestamp unit) :=
  (λ r, set_created_at (to_datetime (created_at r)) r) <$> df.

Definition clean_data (df : list RawEvent) : list NormalizedEvent :=
  let df := convert_created_at df in
  let df := sort_values_id_repo_created_at df in
  let df := assign_time_diff df (groupby_diff ∅ df) in
  relabel df.

End Normalizer.

(** ** Event logs ([process_mining.py]) *)

(** [Series.unique()]: the distinct values, in order of first appearance. *)
Fixpoint unique_from {A} `{EqDecision A} (seen : list A) (l : list A) : list A :=
  match l with
  | [] => []
  | x :: l' =>
      if decide (x ∈ seen) then unique_from seen l'
      else x :: unique_from (x :: seen) l'
  end.

Definition unique {A} `{EqDecision A} (l : list A) : list A := unique_from [] l.

(** The columns of a formatted log that the extraction reads: the case
    identifier, the activity ([type_event] renamed) and the timestamp
    ([created_at] renamed). *)
Record LogRow : Type := mkLogRow {
  case_concept_name : string;
  concept_name : string;
  time_timestamp : Timestamp
}.

Definition log_le (r1 r2 : LogRow) : Prop :=
  ts_le (time_timestamp r1) (time_timestamp r2).

#[global] Instance log_le_dec : RelDecision log_le.
Proof. intros r1 r2. unfold log_le. apply _. Defined.

(** Sorting a log of one case by timestamp, rows with equal timestamps kept
    in their order: [log.sort_values('time:timestamp')], and the sort by
    case and timestamp that pm4py performs. *)
Definition sort_by_timestamp (log : list LogRow) : list LogRow :=
  stable_sort log_le log.

(** The consecutive pairs of a sequence. *)
Fixpoint directly_follows {A} (s : list A) : list (A * A) :=
  match s with
  | a :: (b :: _) as s' => (a, b) :: directly_follows s'
  | _ => []
  end.

(** [dfg_algorithm.apply(log)] of pm4py on the log of one case: the rows are
    put in timestamp order and every pair of consecutive activities is
    counted. *)
Definition dfg_algorithm_apply (log : list LogRow) : gmap (string * string) nat :=
  foldl (λ dfg p, <[p := S (default 0%nat (dfg !! p))]> dfg) ∅
        (directly_follows (concept_name <$> sort_by_timestamp log)).

Record DfgMetrics : Type := mkDfgMetrics {
  num_nodi : nat;
  num_archi : nat;
  densità_dfg : Q
}.

Definition extract_dfg_metrics (log : list LogRow) : DfgMetrics :=
  let dfg := dfg_algorithm_apply log in
  let keys := (map_to_list dfg).*1 in
  let num_nodi := size (list_to_set (keys.*1 ++ keys.*2) : gset string) in
  let num_archi := size dfg in
  let densità :=
    if decide (1 < num_nodi)%nat
    then (inject_Z (Z.of_nat num_archi)
          / inject_Z (Z.of_nat (num_nodi * (num_nodi - 1))))%Q
    else 0%Q in
  mkDfgMetrics num_nodi num_archi densità.

(** [Series.value_counts(normalize=True).to_dict()]. *)
Definition value_counts_normalize (s : list string) : gmap string Q :=
  let counts : gmap string nat :=
    foldl (λ m x, <[x := S (default 0%nat (m !! x))]> m) ∅ s in
  (λ c : nat, (inject_Z (Z.of_nat c) / inject_Z (Z.of_nat (length s)))%Q)
    <$> counts.

(** [Series.diff()] on a column of timestamps. *)
Definition diff (s : list Timestamp) : list (option Z) :=
  match s with
  | [] => []
  | _ :: s' => None :: zip_with ts_sub s' s
  end.

(** [.mean().total_seconds()] on a column of durations: nulls are skipped,
    and the mean of no value at all is null. *)
Definition mean_total_seconds (s : list (option Z)) : option Q :=
  let values : list Z := omap id s in
  match values with
  | [] => None
  | _ => Some (inject_Z (foldr Z.add 0%Z values)
               / inject_Z (Z.of_nat (length values)))%Q
  end.

Record MlFeatures : Type := mkMlFeatures {
  percentuale_StarEvent : Q;
  tempo_medio_eventi : option Q
}.

Definition extract_features_from_log (log : list LogRow) : MlFeatures :=
  let log := sort_by_timestamp log in
  let eventi_unici := value_counts_normalize (concept_name <$> log) in
  let tempo_medio :=
    if decide (1 < length log)%nat
    then mean_total_seconds (diff (time_timestamp <$> log))
    else Some 0%Q in
  mkMlFeatures (default 0%Q (eventi_unici !! "StarEvent")) tempo_medio.

(** [data.groupby('name_repo').groups.keys()]: the distinct names of the
    corpus in ascending order, since pandas sorts the group keys
    ([sort=True]) unless told otherwise.  Python compares strings by code
    point, which is the byte order of their UTF-8 encoding. *)
Definition groupby_name_repo_keys {C D} (data : list (Row C D)) : list string :=
  merge_sort String.le (unique (name_repo <$> data)).

(** The loop of [load_non_trending_repositories]; [filtered_repos] is the
    list built so far. *)
Fixpoint non_trending_loop (trending_repos : list string) (max_repos : nat)
    (keys : list string) (filtered_repos : list string) : list string :=
  match keys with
  | [] => filtered_repos
  | repo_name :: keys' =>
      let filtered_repos :=
        if decide (repo_name ∉ trending_repos)
        then filtered_repos ++ [repo_name]
        else filtered_repos in
      if decide (max_repos ≤ length filtered_repos)%nat
      then filtered_repos
      else non_trending_loop trending_repos max_repos keys' filtered_repos
  end.

Definition load_non_trending_repositories {C D} (data : list (Row C D))
    (trending_repos : list string) : list string :=
  let max_repos := length trending_repos in
  non_trending_loop trending_repos max_repos (groupby_name_repo_keys data) [].

(** ** The run of [process_mining.main]

    The run reads and writes files and may stop with an exception or with
    [exit]; it is modelled in a small state-and-error monad over the part
    of the outside world it touches.  Messages printed on the way are not
    modelled. *)

(** A row of the feature table.  The entries that [repo_features.update]
    merges in are kept as the two records they come from. *)
Record RepoFeatureRow : Type := mkRepoFeatureRow {
  repo_name : string;
  virale : bool;
  dfg_metrics : DfgMetrics;
  ml_features : MlFeatures
}.

(** What [pd.read_csv] finds at a path. *)
Inductive CsvFile (A : Type) : Type :=
| Missing
| Broken
| Table (t : A).

Arguments Missing {A}.
Arguments Broken {A}.
Arguments Table {A}.

Record World : Type := mkWorld {
  (** [DATA_CLEANED_CSV_PATH]: the listing of the directory with, for each
      file, the table [pd.read_csv] and [pd.to_datetime] give, if any;
      [None] when the directory does not exist. *)
  cleaned_csv_dir : option (list (string * option (list NormalizedEvent)));
  (** [TRENDING_REPO_FILE]: a table is a map from column names to columns. *)
  trending_csv : CsvFile (gmap string (list (option string)));
  (** [data/process_model_features.csv]. *)
  features_csv : CsvFile (list RepoFeatureRow);
  (** [DFG_PATH]: the images saved there; [None] when it does not exist. *)
  process_models_dir : option (gset string);
  (** Whether [dfg_visualizer] manages to render and save a given file. *)
  renders : string → bool;
  (** The UTC date of [datetime.datetime.now], as ['%Y-%m-%d']. *)
  today : string
}.

Inductive Exception : Type :=
| FileNotFoundError
| EmptyDataError
| KeyError (key : string)
| UnboundLocalError (name : string).

(** How a computation ends: with a value, with an exception (a subclass of
    [Exception]), or with the [SystemExit] that [exit(code)] raises, which
    [except Exception] does not catch. *)
Inductive Outcome (A : Type) : Type :=
| Returns (a : A) (w : World)
| Raises (e : Exception) (w : World)
| SystemExit (code : option Z) (w : World).

Arguments Returns {A}.
Arguments Raises {A}.
Arguments SystemExit {A}.

Definition Py (A : Type) : Type := World → Outcome A.

#[global] Instance Py_ret : MRet Py := λ A a w, Returns a w.

#[global] Instance Py_bind : MBind Py := λ A B f m w,
  match m w with
  | Returns a w' => f a w'
  | Raises e w' => Raises e w'
  | SystemExit c w' => SystemExit c w'
  end.

Definition raise {A} (e : Exception) : Py A := λ w, Raises e w.

Definition exit {A} (code : option Z) : Py A := λ w, SystemExit code w.

(** [try: body except Exception as e: handler(e)]. *)
Definition try_except {A} (body : Py A) (handler : Exception → Py A) : Py A :=
  λ w,
  match body w with
  | Raises e w' => handler e w'
  | o => o
  end.

Definition gets {A} (f : World → A) : Py A := λ w, Returns (f w) w.

Definition modify (f : World → World) : Py () := λ w, Returns () (f w).

Definition outcome_world {A} (o : Outcome A) : World :=
  match o with
  | Returns _ w | Raises _ w | SystemExit _ w => w
  end.

(** [pd.read_csv(path)] on a file in state [f]. *)
Definition read_csv {A} (f : CsvFile A) : Py A :=
  match f with
  | Missing => raise FileNotFoundError
  | Broken => raise EmptyDataError
  | Table t => mret t
  end.

(** [filename.endswith(suffix)]. *)
Definition endswith (filename suffix : string) : bool :=
  let n := String.length filename in
  let m := String.length suffix in
  bool_decide (m ≤ n)%nat
  && bool_decide (String.substring (n - m) m filename = suffix).

Definition load_cleaned_csv : Py (list NormalizedEvent) :=
  listing ← gets cleaned_csv_dir;
  match listing with
  | None => raise FileNotFoundError
  | Some files =>
      let data :=
        omap (λ '(filename, df), if endswith filename ".csv" then df else None)
             files in
      match data with
      | [] => exit None
      | _ => mret (concat data)
      end
  end.

Definition load_trending_repositories : Py (list string) :=
  try_except
    (trending_df ← gets trending_csv ≫= read_csv;
     match trending_df !! "repository" with
     | None => raise (KeyError "repository")
     | Some column =>
         let trending_repos := unique (omap id column) in
         match trending_repos with
         | [] =>
             (* the message reads [e], which is not bound at this point *)
             raise (UnboundLocalError "e") ≫= λ _ : (), exit (Some 1%Z)
         | _ => mret trending_repos
         end
     end)
    (λ e, exit (Some 1%Z)).

(** [pm4py.format_dataframe] on the rows of one repository: rows without a
    timestamp are dropped and the rest is put in timestamp order, rows with
    equal timestamps in their order in the table. *)
Definition format_dataframe (case_id : string) (dati_repo : list NormalizedEvent)
    : list LogRow :=
  sort_by_timestamp
    (filter (λ r, is_Some (time_timestamp r))
            ((λ r, mkLogRow case_id (type_event r) (created_at r)) <$> dati_repo)).

(** [repo_name_temp.replace("/", "__")]. *)
Fixpoint safe_name (s : string) : string :=
  match s with
  | EmptyString => EmptyString
  | String c s' =>
      if decide (c = "/"%char) then String "_" (String "_" (safe_name s'))
      else String c (safe_name s')
  end.

(** The loop of [generate_process_models_and_features] over the selected
    repositories; [df_features] is the list of rows built so far. *)
Fixpoint generate_loop (dati : list NormalizedEvent) (repo_list_virale : list string)
    (repos : list string) (df_features : list RepoFeatureRow)
    : Py (list RepoFeatureRow) :=
  match repos with
  | [] => mret df_features
  | repo_name :: repos' =>
      let dati_repo := filter (λ r, name_repo r = repo_name) dati in
      match dati_repo with
      | [] => generate_loop dati repo_list_virale repos' df_features
      | _ =>
          date_str ← gets today;
          let repo_name_temp := repo_name +:+ "_" +:+ date_str in
          let log := format_dataframe repo_name_temp dati_repo in
          let repo_features :=
            mkRepoFeatureRow repo_name_temp
                             (bool_decide (repo_name ∈ repo_list_virale))
                             (extract_dfg_metrics log)
                             (extract_features_from_log log) in
          let df_features := df_features ++ [repo_features] in
          let file_path := safe_name repo_name_temp +:+ "_dfg.png" in
          modify (λ w,
            if renders w file_path
            then mkWorld (cleaned_csv_dir w) (trending_csv w) (features_csv w)
                         (union {[file_path]} <$> process_models_dir w)
                         (renders w) (today w)
            else w);;
          generate_loop dati repo_list_virale repos' df_features
      end
  end.

Definition generate_process_models_and_features (dati : list NormalizedEvent)
    (repo_list_virale repo_list_non_virale : list string)
    : Py (list RepoFeatureRow) :=
  (* os.makedirs(DFG_PATH, exist_ok=True) *)
  modify (λ w,
    mkWorld (cleaned_csv_dir w) (trending_csv w) (features_csv w)
            (Some (default ∅ (process_models_dir w))) (renders w) (today w));;
  generate_loop dati repo_list_virale
                (repo_list_virale ++ repo_list_non_virale) [].

(** [df_final.to_csv(features_path, index=False)]: the file then holds the
    table, and reading it back gives the rows written. *)
Definition to_csv_features (df_final : list RepoFeatureRow) : Py () :=
  modify (λ w,
    mkWorld (cleaned_csv_dir w) (trending_csv w) (Table df_final)
            (process_models_dir w) (renders w) (today w)).

Definition main : Py () :=
  data ← load_cleaned_csv;
  repo_list_virale ← load_trending_repositories;
  let repo_list_non_virale :=
    load_non_trending_repositories data repo_list_virale in
  df_features ← generate_process_models_and_features
                   data repo_list_virale repo_list_non_virale;
  features ← gets features_csv;
  df_final ←
    match features with
    | Missing => (* os.path.exists(features_path) is false *)
        mret df_features
    | _ => df_existing ← read_csv features; mret (df_existing ++ df_features)
    end;
  to_csv_features df_final.

(** ** The data collection stage ([data_collection.py])

    The stage works on three directories of files.  The file system is a
    map from the path of a directory to its listing, a map from file names
    to contents; a content is the text of the file.  What the stage gets
    from outside (the clock, the archive server, the codecs of the
    libraries) is gathered in a record.  The order in which [os.listdir]
    gives the names is the one of the keys of the listing. *)

#[local] Set Warnings "-register-all".

(** A value [json.loads] builds. *)
Inductive JSON : Type :=
| JNull
| JBool (b : bool)
| JNumber (literal : string)
| JString (s : string)
| JArray (items : list JSON)
| JObject (fields : gmap string JSON).

(** What [requests.get(url, stream=True)] and the copy of its chunks to the
    file come to: an error before the file is opened, an error after some
    chunks are written, or the whole body written. *)
Inductive Response : Type :=
| RequestFailed
| Interrupted (chunks : string)
| Downloaded (body : string).

(** What [pd.read_csv] makes of the text of a raw CSV file: an exception, a
    table without a [type_event] column, or a table of events. *)
Inductive RawCsv : Type :=
| ReadError
| WithoutTypeEvent
| Events (df : list RawEvent).

Record Outside : Type := mkOutside {
  (** [datetime.datetime.now(datetime.timezone.utc)], in microseconds
      since the epoch. *)
  now : Z;
  (** [strftime("%Y-%m-%d")] of the date with a given day number. *)
  strftime_date : Z → string;
  (** The download of a URL. *)
  requests_get : string → Response;
  (** Whether [os.remove] of a path succeeds. *)
  os_remove : string → bool;
  (** [gzip.open(path, 'rb').readlines()] on the text of a file, [None]
      when it raises. *)
  gzip_readlines : string → option (list string);
  (** [json.loads], [None] when it raises [JSONDecodeError]. *)
  json_loads : string → option JSON;
  (** The text [csv.writer] writes for a list of rows. *)
  csv_text : list (list JSON) → string;
  (** [pd.read_csv] on the text of a raw CSV file. *)
  pd_read_csv : string → RawCsv;
  (** [pd.to_datetime(..., errors='coerce')] on a cell. *)
  pd_to_datetime : string → Timestamp;
  (** The text [DataFrame.to_csv(index=False)] writes for a cleaned table. *)
  to_csv : list NormalizedEvent → string
}.

Module data_collection.

Abbreviation FileSystem := (gmap string (gmap string string)).

Definition DATA_JSON_PATH : string := "data/github_data".
Definition DATA_CSV_PATH : string := "data/github_csv".
Definition DATA_CLEANED_CSV_PATH : string := "data/github_cleaned_csv".

Definition CSV_HEADERS : list string :=
  [ "type_event"; "id_actor"; "login_actor"; "url_actor";
    "url_repo"; "id_repo"; "name_repo"; "action_payload"; "created_at" ].

(** [os.makedirs(path, exist_ok=True)]. *)
Definition makedirs (path : string) (fs : FileSystem) : FileSystem :=
  match fs !! path with
  | Some _ => fs
  | None => <[path := ∅]> fs
  end.

(** [os.path.join(directory, filename)]. *)
Definition path_join (directory filename : string) : string :=
  directory +:+ "/" +:+ filename.

(** The text of a file, [None] when [os.path.exists] is false. *)
Definition read_file (directory filename : string) (fs : FileSystem)
    : option string :=
  fs !! directory ≫= λ listing, listing !! filename.

(** Writing a file in a directory that exists. *)
Definition write_file (directory filename content : string) (fs : FileSystem)
    : FileSystem :=
  alter (<[filename := content]>) directory fs.

Definition remove_file (directory filename : string) (fs : FileSystem)
    : FileSystem :=
  alter (delete filename) directory fs.

(** [clean_unused_files]; [None] when [os.listdir] raises because the
    directory does not exist. *)
Definition clean_unused_files (o : Outside) (directory : string)
    (processed_files : gset string) (file_extension : string)
    (fs : FileSystem) : option FileSystem :=
  listing ← fs !! directory;
  Some (foldl
    (λ fs filename,
       if endswith filename file_extension
          && bool_decide (filename ∉ processed_files)
       then
         let file_path := path_join directory filename in
         if os_remove o file_path then remove_file directory filename fs
         else fs
       else fs)
    fs (map_to_list listing).*1).

(** *** [download_files] *)

Definition microseconds_per_minute : Z := 60 * 1000000.
Definition microseconds_per_hour : Z := 3600 * 1000000.
Definition microseconds_per_day : Z := 86400 * 1000000.

(** [t.replace(hour=h, minute=m, second=0, microsecond=0)]. *)
Definition replace_time (t hour minute : Z) : Z :=
  t `div` microseconds_per_day * microseconds_per_day
  + hour * microseconds_per_hour + minute * microseconds_per_minute.

(** [start] and [end] of [download_files]. *)
Definition download_window (now : Z) : Z * Z :=
  let reference_time := replace_time now 11 3 in
  if decide (now < reference_time)
  then (replace_time (now - 2 * microseconds_per_day) 11 0,
        replace_time (now - 1 * microseconds_per_day) 11 0)
  else (replace_time (now - 1 * microseconds_per_day) 11 0,
        replace_time now 11 0).

(** [f'{current.strftime("%Y-%m-%d")}-{current.hour}.json.gz']. *)
Definition archive_filename (o : Outside) (current : Z) : string :=
  strftime_date o (current `div` microseconds_per_day) +:+ "-"
  +:+ pretty ((current `mod` microseconds_per_day) `div` microseconds_per_hour)
  +:+ ".json.gz".

(** One turn of the loop of [download_files] on the file system and the
    set [downloaded_files]. *)
Definition download_one (o : Outside) (current : Z)
    (state : FileSystem * gset string) : FileSystem * gset string :=
  let '(fs, downloaded_files) := state in
  let filename := archive_filename o current in
  let url := "https://data.gharchive.org/" +:+ filename in
  match read_file DATA_JSON_PATH filename fs with
  | Some _ => (fs, {[filename]} ∪ downloaded_files)
  | None =>
      match requests_get o url with
      | RequestFailed => (fs, downloaded_files)
      | Interrupted chunks =>
          (write_file DATA_JSON_PATH filename chunks fs, downloaded_files)
      | Downloaded body =>
          (write_file DATA_JSON_PATH filename body fs,
           {[filename]} ∪ downloaded_files)
      end
  end.

(** [while current < end: ...; current += timedelta(hours=1)], for at most
    [fuel] turns. *)
Fixpoint download_loop (o : Outside) (fuel : nat) (current end_ : Z)
    (state : FileSystem * gset string) : FileSystem * gset string :=
  match fuel with
  | O => state
  | S fuel =>
      if decide (current < end_)
      then download_loop o fuel (current + microseconds_per_hour) end_
                         (download_one o current state)
      else state
  end.

Definition download_files (o : Outside) (fs : FileSystem) : option FileSystem :=
  let fs := makedirs DATA_JSON_PATH fs in
  let '(start, end_) := download_window (now o) in
  let fuel := Z.to_nat ((end_ - start) `div` microseconds_per_hour + 1) in
  let '(fs, downloaded_files) := download_loop o fuel start end_ (fs, ∅) in
  clean_unused_files o DATA_JSON_PATH downloaded_files ".json.gz" fs.

(** *** [process_files] *)

(** The exceptions a line of an archive can raise. *)
Inductive LineException : Type :=
| JSONDecodeError
| LineKeyError (key : string)
| TypeError
| AttributeError.

(** [value[key]]: a [KeyError] on a dictionary without the key, a
    [TypeError] on a value that is not a dictionary. *)
Definition getitem (value : JSON) (key : string) : LineException + JSON :=
  match value with
  | JObject fields =>
      match fields !! key with
      | Some v => inr v
      | None => inl (LineKeyError key)
      end
  | _ => inl TypeError
  end.

(** [value.get(key)]: [None] on a dictionary without the key, an
    [AttributeError] on a value that is not a dictionary. *)
Definition get (value : JSON) (key : string) : LineException + JSON :=
  match value with
  | JObject fields => inr (default JNull (fields !! key))
  | _ => inl AttributeError
  end.

Definition and_then {A B} (x : LineException + A)
    (f : A → LineException + B) : LineException + B :=
  match x with
  | inl e => inl e
  | inr a => f a
  end.

(** The row written for a line, or the exception the line raises. *)
Definition event_row (o : Outside) (line : string) : LineException + list JSON :=
  match json_loads o line with
  | None => inl JSONDecodeError
  | Some event =>
      and_then (getitem event "type") (λ type_event,
      and_then (and_then (getitem event "actor") (λ a, getitem a "id")) (λ id_actor,
      and_then (and_then (getitem event "actor") (λ a, getitem a "login")) (λ login_actor,
      and_then (and_then (getitem event "actor") (λ a, getitem a "url")) (λ url_actor,
      and_then (and_then (getitem event "repo") (λ r, getitem r "url")) (λ url_repo,
      and_then (and_then (getitem event "repo") (λ r, getitem r "id")) (λ id_repo,
      and_then (and_then (getitem event "repo") (λ r, getitem r "name")) (λ name_repo,
      and_then (and_then (getitem event "payload") (λ p, get p "action")) (λ action_payload,
      and_then (getitem event "created_at") (λ created_at,
      inr [type_event; id_actor; login_actor; url_actor; url_repo; id_repo;
           name_repo; action_payload; created_at])))))))))
  end.

(** The loop over the lines of one archive: the rows written so far, and
    the exception that ended the loop, if one did.  [JSONDecodeError] and
    [KeyError] are caught around each line; any other exception leaves the
    loop. *)
Fixpoint write_rows (o : Outside) (data : list string) (rows : list (list JSON))
    : list (list JSON) * option LineException :=
  match data with
  | [] => (rows, None)
  | line :: data' =>
      match event_row o line with
      | inr row => write_rows o data' (rows ++ [row])
      | inl JSONDecodeError | inl (LineKeyError _) => write_rows o data' rows
      | inl e => (rows, Some e)
      end
  end.

(** [s.replace(old, new)] for a non-empty [old]; [skip] counts the
    characters of a replaced occurrence still to pass. *)
Fixpoint str_replace_from (old new : string) (skip : nat) (s : string) : string :=
  match s with
  | EmptyString => EmptyString
  | String c s' =>
      match skip with
      | S skip' => str_replace_from old new skip' s'
      | O =>
          if String.prefix old s
          then new +:+ str_replace_from old new (String.length old - 1) s'
          else String c (str_replace_from old new 0 s')
      end
  end.

Definition str_replace (old new s : string) : string :=
  str_replace_from old new 0 s.

(** One turn of the loop of [process_files], for a name that ends with
    [.json.gz], on the file system and the set [generated_csv_files]. *)
Definition process_one (o : Outside) (filename : string)
    (state : FileSystem * gset string) : FileSystem * gset string :=
  let '(fs, generated_csv_files) := state in
  let output_filename := str_replace ".json.gz" ".csv" filename in
  match read_file DATA_CSV_PATH output_filename fs with
  | Some _ => (fs, {[output_filename]} ∪ generated_csv_files)
  | None =>
      match read_file DATA_JSON_PATH filename fs ≫= gzip_readlines o with
      | None => (fs, generated_csv_files)
      | Some data =>
          let '(rows, raised) := write_rows o data [] in
          let fs :=
            write_file DATA_CSV_PATH output_filename
                       (csv_text o ((JString <$> CSV_HEADERS) :: rows)) fs in
          match raised with
          | None => (fs, {[output_filename]} ∪ generated_csv_files)
          | Some _ => (fs, generated_csv_files)
          end
      end
  end.

(** [process_files]; [None] when [os.listdir(DATA_JSON_PATH)] raises. *)
Definition process_files (o : Outside) (fs : FileSystem) : option FileSystem :=
  let fs := makedirs DATA_CSV_PATH fs in
  listing ← fs !! DATA_JSON_PATH;
  let '(fs, generated_csv_files) :=
    foldl (λ state filename,
             if endswith filename ".json.gz"
             then process_one o filename state
             else state)
          (fs, ∅) (map_to_list listing).*1 in
  clean_unused_files o DATA_CSV_PATH generated_csv_files ".csv" fs.

(** *** [clean_csv_files] *)

(** One turn of the loop of [clean_csv_files], for a name that ends with
    [.csv], on the file system and the set [processed_cleaned_files]. *)
Definition clean_one (o : Outside) (filename : string)
    (state : FileSystem * gset string) : FileSystem * gset string :=
  let '(fs, processed_cleaned_files) := state in
  match read_file DATA_CLEANED_CSV_PATH filename fs with
  | Some _ => (fs, {[filename]} ∪ processed_cleaned_files)
  | None =>
      match pd_read_csv o <$> read_file DATA_CSV_PATH filename fs with
      | Some (Events df) =>
          let cleaned_df := clean_data (pd_to_datetime o) df in
          (write_file DATA_CLEANED_CSV_PATH filename (to_csv o cleaned_df) fs,
           {[filename]} ∪ processed_cleaned_files)
      | _ => (fs, processed_cleaned_files)
      end
  end.

(** [clean_csv_files]; [None] when [os.listdir(DATA_CSV_PATH)] raises. *)
Definition clean_csv_files (o : Outside) (fs : FileSystem) : option FileSystem :=
  let fs := makedirs DATA_CLEANED_CSV_PATH fs in
  listing ← fs !! DATA_CSV_PATH;
  let '(fs, processed_cleaned_files) :=
    foldl (λ state filename,
             if endswith filename ".csv"
             then clean_one o filename state
             else state)
          (fs, ∅) (map_to_list listing).*1 in
  clean_unused_files o DATA_CLEANED_CSV_PATH processed_cleaned_files ".csv" fs.

Definition main (o : Outside) (fs : FileSystem) : option FileSystem :=
  fs ← download_files o fs;
  fs ← process_files o fs;
  clean_csv_files o fs.

End data_collection.

(** ** What the stages of the data collection do to the files

    The relations below say what the turns of the three loops make of the
    file system; the properties of the stages are stated with them. *)

Module data_collection_aux.
Import data_collection.

(** The text a download leaves in a file that did not exist, if any. *)
Definition server_content (o : Outside) (filename : string) : option string :=
  match requests_get o ("https://data.gharchive.org/" +:+ filename) with
  | RequestFailed => None
  | Interrupted chunks => Some chunks
  | Downloaded body => Some body
  end.

(** The effect of the turns of the loop of [download_files] for the file
    names [names], from a file system and a set [downloaded_files] to the
    next ones. *)
Definition downloaded_to (o : Outside) (names : list string)
    (before after : FileSystem * gset string) : Prop :=
  let '(fs, downloaded_files) := before in
  let '(fs', downloaded_files') := after in
  (∀ d, is_Some (fs' !! d) ↔ is_Some (fs !! d))
  ∧ (∀ d f, d ≠ DATA_JSON_PATH → read_file d f fs' = read_file d f fs)
  ∧ (∀ f c, read_file DATA_JSON_PATH f fs = Some c →
            read_file DATA_JSON_PATH f fs' = Some c)
  ∧ (∀ f, read_file DATA_JSON_PATH f fs = None →
          read_file DATA_JSON_PATH f fs'
          = if decide (f ∈ names) then server_content o f else None)
  ∧ (∀ f, f ∈ downloaded_files → f ∈ downloaded_files')
  ∧ (∀ f, f ∈ names →
          is_Some (read_file DATA_JSON_PATH f fs)
          ∨ (∃ body, requests_get o ("https://data.gharchive.org/" +:+ f)
                     = Downloaded body) →
          f ∈ downloaded_files')
  ∧ (∀ f, f ∈ downloaded_files' → f ∈ downloaded_files ∨ f ∈ names).


(** The text of the CSV file [process_files] makes from an archive. *)
Definition converted_text (o : Outside) (fs : FileSystem) (filename : string)
    : option string :=
  data ← read_file DATA_JSON_PATH filename fs ≫= gzip_readlines o;
  Some (csv_text o ((JString <$> CSV_HEADERS) :: (write_rows o data []).1)).

(** The effect of the turns of the loop of [process_files] for the file
    names [names], from a file system and a set [generated_csv_files] to
    the next ones. *)
Definition converted_to (o : Outside) (names : list string)
    (before after : FileSystem * gset string) : Prop :=
  let '(fs, generated_csv_files) := before in
  let '(fs', generated_csv_files') := after in
  (∀ d, is_Some (fs' !! d) ↔ is_Some (fs !! d))
  ∧ (∀ d f, d ≠ DATA_CSV_PATH → read_file d f fs' = read_file d f fs)
  ∧ (∀ f c, read_file DATA_CSV_PATH f fs = Some c →
            read_file DATA_CSV_PATH f fs' = Some c)
  ∧ (∀ f c, read_file DATA_CSV_PATH f fs = None →
            read_file DATA_CSV_PATH f fs' = Some c →
            ∃ n, n ∈ names ∧ endswith n ".json.gz" = true
                 ∧ str_replace ".json.gz" ".csv" n = f
                 ∧ converted_text o fs n = Some c)
  ∧ (∀ f, f ∈ generated_csv_files → f ∈ generated_csv_files')
  ∧ (∀ f, f ∈ generated_csv_files' →
          f ∈ generated_csv_files
          ∨ ∃ n, n ∈ names ∧ endswith n ".json.gz" = true
                 ∧ str_replace ".json.gz" ".csv" n = f)
  ∧ (∀ n, n ∈ names → endswith n ".json.gz" = true →
          is_Some (read_file DATA_CSV_PATH
                             (str_replace ".json.gz" ".csv" n) fs) →
          str_replace ".json.gz" ".csv" n ∈ generated_csv_files').

(** The text of the cleaned file [clean_csv_files] makes from a raw CSV
    file, if it makes one. *)
Definition cleaned_text (o : Outside) (fs : FileSystem) (filename : string)
    : option string :=
  raw ← read_file DATA_CSV_PATH filename fs;
  match pd_read_csv o raw with
  | Events df => Some (to_csv o (clean_data (pd_to_datetime o) df))
  | _ => None
  end.

(** The effect of the turns of the loop of [clean_csv_files] for the file
    names [names], from a file system and a set [processed_cleaned_files]
    to the next ones. *)
Definition cleaned_to (o : Outside) (names : list string)
    (before after : FileSystem * gset string) : Prop :=
  let '(fs, processed_cleaned_files) := before in
  let '(fs', processed_cleaned_files') := after in
  (∀ d, is_Some (fs' !! d) ↔ is_Some (fs !! d))
  ∧ (∀ d f, d ≠ DATA_CLEANED_CSV_PATH → read_file d f fs' = read_file d f fs)
  ∧ (∀ f c, read_file DATA_CLEANED_CSV_PATH f fs = Some c →
            read_file DATA_CLEANED_CSV_PATH f fs' = Some c)
  ∧ (∀ f, read_file DATA_CLEANED_CSV_PATH f fs = None →
          read_file DATA_CLEANED_CSV_PATH f fs'
          = if decide (f ∈ names ∧ endswith f ".csv" = true)
            then cleaned_text o fs f else None)
  ∧ (∀ f, f ∈ processed_cleaned_files → f ∈ processed_cleaned_files')
  ∧ (∀ f, f ∈ processed_cleaned_files' →
          f ∈ processed_cleaned_files
          ∨ (f ∈ names ∧ endswith f ".csv" = true))
  ∧ (∀ f, f ∈ names → endswith f ".csv" = true →
          is_Some (read_file DATA_CLEANED_CSV_PATH f fs') →
          f ∈ processed_cleaned_files').



End data_collection_aux.
Import data_collection_aux.

(** The scenario of the specification: three events of one repository. *)
Definition scenario_event (t : string) (a : option string) (c : string) : RawEvent :=
  mkRow t 1 "alice" "https://api.github.com/users/alice"
        "https://api.github.com/repos/o/R" 42 "o/R" a c ().

Definition scenario : list RawEvent :=
  [ scenario_event "WatchEvent" (Some "started") "1970-01-01T00:00:00Z";
    scenario_event "PushEvent" None "1970-01-01T00:00:10Z";
    scenario_event "WatchEvent" (Some "started") "1970-01-01T00:00:30Z" ].

(** A reading of timestamps that knows the three instants of the scenario
    and takes any other text for unreadable. *)
Definition scenario_to_datetime (s : string) : Timestamp :=
  if decide (s = "1970-01-01T00:00:00Z") then Some 0
  else if decide (s = "1970-01-01T00:00:10Z") then Some 10
  else if decide (s = "1970-01-01T00:00:30Z") then Some 30
  else None.

(** A table of two repositories with a tie and an unreadable timestamp. *)
Definition mixed_event (g : Z) (actor : string) (c : string) : RawEvent :=
  mkRow "PushEvent" 1 actor "https://api.github.com/users/u"
        "https://api.github.com/repos/o/R" g "o/R" None c ().

Definition mixed_table : list RawEvent :=
  [ mixed_event 2 "u1" "1970-01-01T00:00:10Z";
    mixed_event 1 "u2" "yesterday";
    mixed_event 1 "u3" "1970-01-01T00:00:30Z";
    mixed_event 1 "u4" "1970-01-01T00:00:30Z";
    mixed_event 1 "u5" "1970-01-01T00:00:00Z" ].

(** An event of a bot actor. *)
Definition bot_event : RawEvent :=
  mkRow "PushEvent" 49699333 "dependabot[bot]"
        "https://api.github.com/users/dependabot[bot]"
        "https://api.github.com/repos/o/R" 42 "o/R" None
        "2024-05-01T11:00:00Z" ().

(** A log where an event type directly follows itself. *)
Definition self_loop_log : list LogRow :=
  [ mkLogRow "o/R_2024-05-01" "PushEvent" (Some 0);
    mkLogRow "o/R_2024-05-01" "PushEvent" (Some 1);
    mkLogRow "o/R_2024-05-01" "IssuesEvent" (Some 2);
    mkLogRow "o/R_2024-05-01" "IssuesEvent" (Some 3);
    mkLogRow "o/R_2024-05-01" "PushEvent" (Some 4) ].

(** The order the specification gives for the selection: the eligible
    repositories in order of first occurrence in the corpus. *)
Definition first_encountered_eligible {C D} (data : list (Row C D))
    (trending_repos : list string) : list string :=
  filter (λ repo_name, repo_name ∉ trending_repos) (unique (name_repo <$> data)).

(** A corpus whose first repository is not the first in sorted order. *)
Definition unsorted_corpus : list NormalizedEvent :=
  [ mkRow "PushEvent" 1 "alice" "https://api.github.com/users/alice"
          "https://api.github.com/repos/zeta/app" 7 "zeta/app" None
          (Some 0) None;
    mkRow "PushEvent" 2 "bob" "https://api.github.com/users/bob"
          "https://api.github.com/repos/alpha/lib" 9 "alpha/lib" None
          (Some 5) None ].

(** The trending list gives no repository: the file is missing or
    unreadable, has no [repository] column, or has no value in it. *)
Definition trending_list_unusable
    (f : CsvFile (gmap string (list (option string)))) : Prop :=
  match f with
  | Missing | Broken => True
  | Table t =>
      match t !! "repository" with
      | None => True
      | Some column => omap id column = []
      end
  end.

(** A world for a run on the scenario: one cleaned file, one trending
    repository, and a feature table left by an earlier run. *)
Definition earlier_row : RepoFeatureRow :=
  mkRepoFeatureRow "o/R_2024-05-02" true
    (mkDfgMetrics 2 2 1) (mkMlFeatures (2 # 3) (Some 15%Q)).

Definition scenario_world : World :=
  mkWorld
    (Some [("2024-05-01-11.csv", Some (clean_data scenario_to_datetime scenario));
           ("notes.txt", None)])
    (Table {[ "repository" := [Some "o/R"; None; Some "o/R"] ]})
    (Table [earlier_row])
    None
    (λ _, true)
    "2024-05-02".

(** The run left the files it reads alone and only added images to the
    ones of [images]. *)
Definition only_images_added (images : gset string) (w w' : World) : Prop :=
  cleaned_csv_dir w' = cleaned_csv_dir w
  ∧ trending_csv w' = trending_csv w
  ∧ features_csv w' = features_csv w
  ∧ renders w' = renders w
  ∧ today w' = today w
  ∧ ∃ images', process_models_dir w' = Some images'
               ∧ images ⊆ images'.

(** * Properties *)

(** ** The stable sort *)

Section StableSortFacts.
Context {A : Type} (R : relation A) `{!RelDecision R}.

Lemma insert_sorted_Permutation (x : A) (l : list A) :
  insert_sorted R x l ≡ₚ x :: l.
Proof.
  induction l as [|y l IH]; simpl; [done|].
  case_decide; [done|]. rewrite IH. apply Permutation_swap.
Qed.

Lemma stable_sort_Permutation (l : list A) : stable_sort R l ≡ₚ l.
Proof.
  induction l as [|x l IH]; simpl; [done|].
  by rewrite insert_sorted_Permutation, IH.
Qed.

Lemma length_stable_sort (l : list A) : length (stable_sort R l) = length l.
Proof. by rewrite stable_sort_Permutation. Qed.

Lemma Sorted_insert_sorted `{!Total R} (x : A) (l : list A) :
  Sorted R l → Sorted R (insert_sorted R x l).
Proof.
  induction 1 as [|y l Hl IH Hhd]; simpl.
  - by repeat constructor.
  - case_decide as Hxy.
    + by repeat constructor.
    + constructor; [done|].
      destruct (total R x y) as [?|Hyx]; [done|].
      destruct Hhd as [|z l Hyz]; simpl; [by repeat constructor|].
      case_decide; by constructor.
Qed.

Lemma Sorted_stable_sort `{!Total R} (l : list A) : Sorted R (stable_sort R l).
Proof.
  induction l; simpl; [constructor|]. by apply Sorted_insert_sorted.
Qed.

(** Rows that the order does not tell apart keep their relative order. *)
Lemma filter_insert_sorted (P : A → Prop) `{!∀ x, Decision (P x)} x l :
  (∀ a b, P a → P b → R a b) →
  filter P (insert_sorted R x l) = filter P (x :: l).
Proof.
  intros HP. induction l as [|y l IH]; simpl; [done|].
  case_decide as Hxy; [done|].
  rewrite filter_cons, IH, !filter_cons.
  destruct (decide (P y)), (decide (P x)); naive_solver.
Qed.

Lemma filter_stable_sort (P : A → Prop) `{!∀ x, Decision (P x)} l :
  (∀ a b, P a → P b → R a b) →
  filter P (stable_sort R l) = filter P l.
Proof.
  intros HP. induction l as [|x l IH]; simpl; [done|].
  rewrite filter_insert_sorted by done. by rewrite !filter_cons, IH.
Qed.

End StableSortFacts.

(** ** Orders on timestamps and sort keys *)

#[global] Instance ts_le_refl : Reflexive ts_le.
Proof. intros [x|]; simpl; [lia|done]. Qed.

#[global] Instance ts_le_trans : Transitive ts_le.
Proof. intros [x|] [y|] [z|]; simpl; try done; lia. Qed.

#[global] Instance ts_le_total : Total ts_le.
Proof. intros [x|] [y|]; simpl; try lia; auto. Qed.

#[global] Instance key_le_trans {D} : Transitive (@key_le D).
Proof.
  intros r1 r2 r3 [H12|[E12 H12]] [H23|[E23 H23]]; unfold key_le.
  - left; lia.
  - left; lia.
  - left; lia.
  - right; split; [lia|]. by etrans.
Qed.

#[global] Instance key_le_total {D} : Total (@key_le D).
Proof.
  intros r1 r2. unfold key_le.
  destruct (Z.lt_trichotomy (id_repo r1) (id_repo r2)) as [?|[E|?]]; auto.
  destruct (total ts_le (created_at r1) (created_at r2)); auto.
Qed.

(** ** Lists *)

Lemma filter_fmap {A B} (f : A → B) (P : B → Prop) `{!∀ y, Decision (P y)}
    (l : list A) :
  filter P (f <$> l) = f <$> filter (λ x, P (f x)) l.
Proof.
  induction l as [|x l IH]; [done|].
  rewrite fmap_cons, !filter_cons, IH. by destruct (decide (P (f x))).
Qed.

Lemma StronglySorted_filter {A} (R : relation A) (P : A → Prop)
    `{!∀ x, Decision (P x)} (l : list A) :
  StronglySorted R l → StronglySorted R (filter P l).
Proof.
  induction 1 as [|x l Hl IH Hx]; [constructor|].
  rewrite filter_cons. destruct (decide (P x)); [|done].
  constructor; [done|].
  apply Forall_forall. intros y [_ Hy]%list_elem_of_filter.
  by eapply Forall_forall in Hx.
Qed.

Lemma StronglySorted_lookup {A} (R : relation A) (l : list A) (i j : nat) (x y : A) :
  StronglySorted R l → (i < j)%nat → l !! i = Some x → l !! j = Some y → R x y.
Proof.
  intros Hl. revert i j. induction Hl as [|z l Hl IH Hz]; intros i j Hij Hi Hj.
  { by rewrite lookup_nil in Hi. }
  destruct j as [|j]; [lia|]. destruct i as [|i]; simplify_eq/=.
  - eapply Forall_forall in Hz; [done|]. by eapply list_elem_of_lookup_2.
  - apply (IH i j); [lia|done..].
Qed.

(** ** The Event Normalizer *)

Lemma length_groupby_diff {D} (last : gmap Z Timestamp) (df : list (Row Timestamp D)) :
  length (groupby_diff last df) = length df.
Proof. revert last. induction df; intros; simpl; auto. Qed.

Lemma relabel_row_set_time_diff {C D D'} (d : D') (r : Row C D) :
  relabel_row (set_time_diff d r) = relabel_row r.
Proof. done. Qed.

Lemma relabel_set_time_diff {C D D'} (d : D') (df : list (Row C D)) :
  set_time_diff d <$> relabel df = relabel (set_time_diff d <$> df).
Proof. unfold relabel. rewrite <-!list_fmap_compose. by apply list_fmap_ext. Qed.

Lemma set_time_diff_unit {C} (r : Row C ()) : set_time_diff () r = r.
Proof. by destruct r as [? ? ? ? ? ? ? ? ? []]. Qed.

Lemma drop_assign_time_diff (df : list (Row Timestamp ())) (col : list (option Z)) :
  length col = length df →
  set_time_diff () <$> assign_time_diff df col = df.
Proof.
  unfold assign_time_diff. revert col.
  induction df as [|r df IH]; intros [|d col] ?; simplify_eq/=; [done|].
  f_equal; [apply set_time_diff_unit|auto].
Qed.

(** Without its [time_diff] column, the table returned is the sorted table
    relabelled. *)
Lemma clean_data_drop_time_diff (to_datetime : string → Timestamp) (df : list RawEvent) :
  set_time_diff () <$> clean_data to_datetime df
  = relabel (sort_values_id_repo_created_at (convert_created_at to_datetime df)).
Proof.
  unfold clean_data. rewrite relabel_set_time_diff. f_equal.
  apply drop_assign_time_diff, length_groupby_diff.
Qed.

(** *** The rows of bot actors *)

(** C1: the docstring of [clean_data] announces that events of bot actors
    are excluded, but no step of the function removes a row: the table
    returned holds the actors of the input table, each as many times, and
    the event of [dependabot[bot]] comes back from a table that holds it
    alone. *)
Theorem clean_data_keeps_every_actor (to_datetime : string → Timestamp)
    (df : list RawEvent) :
  (λ r, (id_actor r, login_actor r)) <$> clean_data to_datetime df
  ≡ₚ (λ r, (id_actor r, login_actor r)) <$> df
  ∧ login_actor <$> clean_data to_datetime [bot_event] = ["dependabot[bot]"].
Proof.
  split; [|reflexivity].
  transitivity ((λ r : Row Timestamp (), (id_actor r, login_actor r))
                  <$> (set_time_diff () <$> clean_data to_datetime df)).
  { rewrite <-list_fmap_compose. by erewrite list_fmap_ext. }
  rewrite clean_data_drop_time_diff. unfold relabel, convert_created_at.
  rewrite <-list_fmap_compose.
  unfold sort_values_id_repo_created_at. rewrite stable_sort_Permutation.
  rewrite <-list_fmap_compose. by erewrite list_fmap_ext.
Qed.

(** *** Relabelling *)

(** C5: relabelling [WatchEvent]/[started] rows to [StarEvent] a second
    time changes nothing. *)
Theorem relabel_idempotent {C D} (df : list (Row C D)) :
  relabel (relabel df) = relabel df.
Proof.
  unfold relabel. rewrite <-list_fmap_compose. apply list_fmap_ext.
  intros _ r _. unfold compose, set_type_event. simpl. f_equal.
  unfold relabel_row at 1. simpl.
  case_bool_decide as H; [|done].
  destruct H as [H Ha]. revert H. unfold relabel_row.
  case_bool_decide as H'; [done|]. intros H. by destruct H'.
Qed.

(** *** Stability of the sort *)

(** C4: for every repository [g] and timestamp [t], the rows of the
    returned table with that [id_repo] and [created_at] are, column
    [time_diff] apart, the rows of the input with that key (timestamps
    converted, types relabelled), in the order they have in the input. *)
Theorem clean_data_sort_stable (to_datetime : string → Timestamp)
    (df : list RawEvent) (g : Z) (t : Timestamp) :
  filter (λ r, id_repo r = g ∧ created_at r = t)
         (set_time_diff () <$> clean_data to_datetime df)
  = relabel (filter (λ r, id_repo r = g ∧ created_at r = t)
                    (convert_created_at to_datetime df)).
Proof.
  rewrite clean_data_drop_time_diff. unfold relabel.
  rewrite filter_fmap. f_equal.
  unfold sort_values_id_repo_created_at.
  rewrite <-(filter_stable_sort key_le
               (λ r, id_repo r = g ∧ created_at r = t)
               (convert_created_at to_datetime df)).
  - by apply list_filter_iff.
  - intros a b [Ha Hta] [Hb Htb]. right. split; [congruence|].
    rewrite Hta, Htb. reflexivity.
Qed.

(** *** Order and gaps within a repository *)

(** In the column [groupby_diff] computes, the rows of repository [g] carry
    the differences of consecutive timestamps of [g]; the first one is
    measured from the timestamp [last] holds for [g], if any. *)
Lemma groupby_diff_group {D} (df : list (Row Timestamp D))
    (last : gmap Z Timestamp) (g : Z) :
  let group :=
    filter (λ r, id_repo r = g) (assign_time_diff df (groupby_diff last df)) in
  (∀ r, group !! 0%nat = Some r →
        time_diff r = match last !! g with
                      | None => None
                      | Some prev => ts_sub (created_at r) prev
                      end)
  ∧ (∀ k p r, group !! k = Some p → group !! S k = Some r →
              time_diff r = ts_sub (created_at r) (created_at p)).
Proof.
  revert last. induction df as [|r0 df IH]; intros last; simpl.
  { split; intros; simplify_eq/=. }
  unfold assign_time_diff in *. simpl.
  specialize (IH (<[id_repo r0 := created_at r0]> last)).
  simpl in IH. destruct IH as [IH0 IHS].
  rewrite filter_cons. simpl. case_decide as Hg.
  - subst g. rewrite lookup_insert_eq in IH0. split.
    + intros r [= <-]. done.
    + intros [|k] p r Hp Hr; simplify_eq/=.
      * by apply IH0.
      * by eapply IHS.
  - rewrite lookup_insert_ne in IH0 by done. by split.
Qed.

Lemma StronglySorted_key_le_created_at {D} (g : Z) (l : list (Row Timestamp D)) :
  StronglySorted key_le l →
  Forall (λ r, id_repo r = g) l →
  StronglySorted ts_le (created_at <$> l).
Proof.
  induction 1 as [|x l Hl IH Hx]; intros Hg; [constructor|].
  apply Forall_cons in Hg as [Hxg Hg]. rewrite fmap_cons.
  constructor; [by apply IH|].
  apply Forall_fmap, Forall_forall. intros y Hy. simpl.
  eapply Forall_forall in Hx; [|done].
  eapply Forall_forall in Hg; [|done].
  destruct Hx as [?|[_ ?]]; [lia|done].
Qed.

Lemma clean_data_group_created_at (to_datetime : string → Timestamp)
    (df : list RawEvent) (g : Z) :
  created_at <$> filter (λ r, id_repo r = g) (clean_data to_datetime df)
  = created_at <$> filter (λ r, id_repo r = g)
      (sort_values_id_repo_created_at (convert_created_at to_datetime df)).
Proof.
  transitivity (created_at <$> filter (λ r : Row Timestamp (), id_repo r = g)
                  (set_time_diff () <$> clean_data to_datetime df)).
  { rewrite filter_fmap, <-list_fmap_compose. done. }
  rewrite clean_data_drop_time_diff. unfold relabel.
  rewrite filter_fmap, <-list_fmap_compose. done.
Qed.

(** C3: in the table [clean_data] returns, the rows of each repository are
    in non-decreasing order of [created_at] (null timestamps last), the
    first row of the repository has a null [time_diff], and every later row
    has the difference between its timestamp and the one of the row before
    it in the repository, which is null when either timestamp is. *)
Theorem clean_data_group_sorted_time_diff (to_datetime : string → Timestamp)
    (df : list RawEvent) (g : Z) :
  let group := filter (λ r, id_repo r = g) (clean_data to_datetime df) in
  StronglySorted ts_le (created_at <$> group)
  ∧ (∀ r, group !! 0%nat = Some r → time_diff r = None)
  ∧ (∀ k p r, group !! k = Some p → group !! S k = Some r →
       time_diff r = ts_sub (created_at r) (created_at p)
       ∧ (created_at p = None → time_diff r = None)
       ∧ (∀ a b, created_at p = Some a → created_at r = Some b →
            (a ≤ b)%Z ∧ time_diff r = Some (b - a)%Z)).
Proof.
  intros group.
  assert (Hsorted : StronglySorted ts_le (created_at <$> group)).
  { unfold group. rewrite clean_data_group_created_at.
    apply (StronglySorted_key_le_created_at g).
    - apply StronglySorted_filter, Sorted_StronglySorted; [apply _|].
      apply Sorted_stable_sort, _.
    - apply Forall_forall. by intros r [? _]%list_elem_of_filter. }
  set (sorted := sort_values_id_repo_created_at
                   (convert_created_at to_datetime df)) in *.
  destruct (groupby_diff_group sorted ∅ g) as [H0 HS].
  assert (Hgroup : group = relabel (filter (λ r, id_repo r = g)
            (assign_time_diff sorted (groupby_diff ∅ sorted)))).
  { unfold group, clean_data, relabel. by rewrite filter_fmap. }
  assert (Hgap : ∀ k p r, group !! k = Some p → group !! S k = Some r →
            time_diff r = ts_sub (created_at r) (created_at p)).
  { intros k p r. rewrite Hgroup. unfold relabel. rewrite !list_lookup_fmap.
    intros (p' & Hp & ->)%fmap_Some (r' & Hr & ->)%fmap_Some. simpl.
    by eapply HS. }
  split; [done|]. split.
  - intros r. rewrite Hgroup. unfold relabel. rewrite list_lookup_fmap.
    intros (r' & Hr & ->)%fmap_Some. simpl.
    rewrite (H0 r' Hr). by rewrite lookup_empty.
  - intros k p r Hp Hr. pose proof (Hgap k p r Hp Hr) as Hd.
    split; [done|]. split.
    + intros Hnull. rewrite Hd, Hnull. by destruct (created_at r).
    + intros a b Ha Hb. rewrite Hd, Ha, Hb. split; [|done].
      apply (list_lookup_fmap_Some_2 created_at) in Hp, Hr.
      rewrite Ha in Hp. rewrite Hb in Hr.
      assert (Hle : ts_le (Some a) (Some b)); [|done].
      eapply (StronglySorted_lookup ts_le _ k (S k)); [done|lia|done..].
Qed.

Example clean_data_mixed_table :
  (λ r, (id_repo r, login_actor r, created_at r, time_diff r))
    <$> clean_data scenario_to_datetime mixed_table
  = [ (1, "u5", Some 0, None);
      (1, "u3", Some 30, Some 30);
      (1, "u4", Some 30, Some 0);
      (1, "u2", None, None);
      (2, "u1", Some 10, None) ].
Proof. reflexivity. Qed.

Lemma clean_data_group_sorted_time_diff_witness :
  ∃ p r,
    filter (λ r, id_repo r = 1) (clean_data scenario_to_datetime mixed_table)
      !! 0%nat = Some p
    ∧ filter (λ r, id_repo r = 1) (clean_data scenario_to_datetime mixed_table)
      !! 1%nat = Some r
    ∧ login_actor r = "u3"
    ∧ time_diff r = Some 30.
Proof.
  destruct (clean_data_group_sorted_time_diff scenario_to_datetime mixed_table 1)
    as (_ & _ & H).
  eexists _, _. split; [reflexivity|]. split; [reflexivity|].
  split; [reflexivity|].
  destruct (H 0%nat _ _ eq_refl eq_refl) as (_ & _ & Hab).
  exact (proj2 (Hab 0 30 eq_refl eq_refl)).
Defined.

(** ** Density of the directly-follows graph *)

(** The pairs over [k] whose first component is [a], the one on the
    diagonal left out. *)
Lemma length_off_diagonal_row {A} `{EqDecision A} (a : A) (k : list A) :
  NoDup k →
  (length (filter (λ p : A * A, p.1 ≠ p.2) (pair a <$> k))
   + (if decide (a ∈ k) then 1 else 0) = length k)%nat.
Proof.
  induction 1 as [|y k Hy Hk IH]; [done|].
  rewrite fmap_cons, filter_cons. cbn [fst snd length].
  destruct (decide (a = y)) as [->|Hay].
  - rewrite decide_False by naive_solver.
    rewrite decide_True by left.
    rewrite decide_False in IH by done. lia.
  - rewrite decide_True by done. cbn [length].
    destruct (decide (a ∈ k)) as [Hin|Hin].
    + rewrite decide_True by (by right). lia.
    + rewrite decide_False by (intros [?|?]%elem_of_cons; done). lia.
Qed.

Lemma length_off_diagonal {A} `{EqDecision A} (l k : list A) :
  NoDup k → l ⊆ k →
  length (filter (λ p : A * A, p.1 ≠ p.2) (list_prod l k))
  = (length l * (length k - 1))%nat.
Proof.
  intros Hk. induction l as [|a l IH]; intros Hl; [done|]. simpl.
  rewrite filter_app, length_app, IH by set_solver.
  pose proof (length_off_diagonal_row a k Hk) as Hrow.
  rewrite decide_True in Hrow by set_solver.
  change (map (λ y, (a, y)) k) with (pair a <$> k). lia.
Qed.

(** A graph on [n] nodes has at most [n * n] edges, and at most
    [n * (n - 1)] when no node has an edge to itself. *)
Lemma dfg_size_bound (dfg : gmap (string * string) nat) :
  let keys := (map_to_list dfg).*1 in
  let n := size (list_to_set (keys.*1 ++ keys.*2) : gset string) in
  (size dfg ≤ n * n)%nat
  ∧ ((∀ a, dfg !! (a, a) = None) → (size dfg ≤ n * (n - 1))%nat).
Proof.
  intros keys n.
  set (nodes := elements (list_to_set (keys.*1 ++ keys.*2) : gset string)).
  assert (Hn : n = length nodes) by done.
  assert (Hnodes : NoDup nodes) by apply NoDup_elements.
  assert (Hkeys : NoDup keys) by apply NoDup_fst_map_to_list.
  assert (Hsize : size dfg = length keys).
  { unfold keys. by rewrite length_fmap, length_map_to_list. }
  assert (Hin : ∀ p, p ∈ keys → p.1 ∈ nodes ∧ p.2 ∈ nodes).
  { intros p Hp. unfold nodes. rewrite !elem_of_elements, !elem_of_list_to_set.
    rewrite !elem_of_app. split; [left|right]; by apply list_elem_of_fmap_2. }
  rewrite Hsize, Hn. split.
  - rewrite <-(length_prod nodes nodes), <-list_cprod_list_prod.
    apply submseteq_length, NoDup_submseteq; [done|].
    intros p Hp. by apply list_elem_of_cprod, Hin.
  - intros Hloop.
    rewrite <-(length_off_diagonal nodes nodes) by done.
    apply submseteq_length, NoDup_submseteq; [done|].
    intros [a b] Hp. apply list_elem_of_filter. split.
    + simpl. intros ->.
      apply list_elem_of_fmap in Hp as [[q c] [? Hq]]. simplify_eq/=.
      apply elem_of_map_to_list in Hq. by rewrite Hloop in Hq.
    + rewrite <-list_cprod_list_prod. by apply list_elem_of_cprod, Hin.
Qed.

Lemma Qdiv_nat_bounds (a b c : nat) :
  (0 < b)%nat → (a ≤ c * b)%nat →
  (0 <= inject_Z (Z.of_nat a) / inject_Z (Z.of_nat b)
   ∧ inject_Z (Z.of_nat a) / inject_Z (Z.of_nat b) <= inject_Z (Z.of_nat c))%Q.
Proof.
  intros Hb Hab.
  assert (0 < inject_Z (Z.of_nat b))%Q by (unfold Qlt; simpl; lia).
  split.
  - apply Qle_shift_div_l; [done|]. unfold Qle; simpl; lia.
  - apply Qle_shift_div_r; [done|].
    rewrite <-inject_Z_mult, <-Zle_Qle. nia.
Qed.

(** The edges of the graph are among the consecutive pairs counted. *)
Lemma dfg_count_lookup (pairs : list (string * string))
    (dfg : gmap (string * string) nat) (p : string * string) :
  is_Some (foldl (λ dfg p, <[p := S (default 0%nat (dfg !! p))]> dfg) dfg pairs !! p) →
  is_Some (dfg !! p) ∨ p ∈ pairs.
Proof.
  revert dfg. induction pairs as [|q pairs IH]; intros dfg; simpl; [auto|].
  intros [H|H]%IH; [|right; by right].
  destruct (decide (q = p)) as [->|]; [right; left|].
  left. by rewrite lookup_insert_ne in H.
Qed.

(** C2 (as amended): the density is 0 when the graph has at most one node;
    it always lies between 0 and 2, and between 0 and 1 when no two
    consecutive events of the log have the same type. *)
Theorem extract_dfg_metrics_density (log : list LogRow) :
  let m := extract_dfg_metrics log in
  (0 <= densità_dfg m)%Q
  ∧ (densità_dfg m <= 2)%Q
  ∧ ((num_nodi m ≤ 1)%nat → densità_dfg m = 0%Q)
  ∧ (Forall (λ p, p.1 ≠ p.2)
            (directly_follows (concept_name <$> sort_by_timestamp log)) →
     (densità_dfg m <= 1)%Q).
Proof.
  unfold extract_dfg_metrics. simpl.
  destruct (dfg_size_bound (dfg_algorithm_apply log)) as [Hsq Hoff].
  simpl in Hsq, Hoff.
  set (n := size (list_to_set _ : gset string)) in *.
  set (a := size (dfg_algorithm_apply log)) in *.
  destruct (decide (1 < n)%nat) as [Hn|Hn].
  - destruct (Qdiv_nat_bounds a (n * (n - 1)) 2) as [H0 H2]; [nia|nia|].
    split; [done|]. split; [done|]. split; [lia|].
    intros Hloop.
    assert (a ≤ n * (n - 1))%nat as Ha.
    { apply Hoff. intros x. apply eq_None_not_Some.
      intros [H|H]%dfg_count_lookup.
      - by rewrite lookup_empty in H; destruct H.
      - eapply Forall_forall in Hloop; [|done]. done. }
    by destruct (Qdiv_nat_bounds a (n * (n - 1)) 1) as [_ H1]; [nia|nia|].
  - repeat split; done.
Qed.

Lemma extract_dfg_metrics_density_witness :
  densità_dfg (extract_dfg_metrics [mkLogRow "o/R_2024-05-01" "PushEvent" (Some 0%Z)])
  = 0%Q
  ∧ (densità_dfg (extract_dfg_metrics
       (format_dataframe "o/R_2024-05-01"
          (clean_data scenario_to_datetime scenario))) <= 1)%Q.
Proof.
  split.
  - apply (extract_dfg_metrics_density
             [mkLogRow "o/R_2024-05-01" "PushEvent" (Some 0%Z)]).
    vm_compute. lia.
  - apply (extract_dfg_metrics_density
             (format_dataframe "o/R_2024-05-01"
                (clean_data scenario_to_datetime scenario))).
    apply (bool_decide_unpack _). vm_compute. exact I.
Defined.

(** C2, counterexample: two event types that each follow themselves and
    one another give four edges on two nodes, a density of 2. *)
Lemma extract_dfg_metrics_density_above_one :
  let m := extract_dfg_metrics self_loop_log in
  (num_nodi m > 1)%nat ∧ ¬ (0 <= densità_dfg m ∧ densità_dfg m <= 1)%Q.
Proof.
  split; [vm_compute; lia|].
  intros [_ H]. vm_compute in H. by apply H.
Qed.

(** ** The Repository Selector *)

Lemma unique_from_spec {A} `{EqDecision A} (seen l : list A) :
  NoDup (unique_from seen l)
  ∧ (∀ x, x ∈ unique_from seen l ↔ x ∈ l ∧ x ∉ seen).
Proof.
  revert seen. induction l as [|y l IH]; intros seen; simpl.
  { split; [constructor|]. set_solver. }
  case_decide as Hy.
  - destruct (IH seen) as [Hnd Hin]. split; [done|]. set_solver.
  - destruct (IH (y :: seen)) as [Hnd Hin]. split.
    + constructor; [|done]. set_solver.
    + intros x. destruct (decide (x = y)); set_solver.
Qed.

Lemma NoDup_unique {A} `{EqDecision A} (l : list A) : NoDup (unique l).
Proof. apply unique_from_spec. Qed.

Lemma elem_of_unique {A} `{EqDecision A} (l : list A) (x : A) :
  x ∈ unique l ↔ x ∈ l.
Proof.
  unfold unique. rewrite (proj2 (unique_from_spec [] l)), elem_of_nil.
  naive_solver.
Qed.

(** The group keys: the distinct names of the corpus in ascending order. *)
Lemma groupby_name_repo_keys_spec {C D} (data : list (Row C D)) :
  let keys := groupby_name_repo_keys data in
  StronglySorted String.le keys
  ∧ NoDup keys
  ∧ (∀ x, x ∈ keys ↔ x ∈ name_repo <$> data).
Proof.
  unfold groupby_name_repo_keys. split; [|split].
  - apply StronglySorted_merge_sort; apply _.
  - rewrite merge_sort_Permutation. apply NoDup_unique.
  - intros x. rewrite merge_sort_Permutation. apply elem_of_unique.
Qed.

(** The loop stops as soon as [max_repos] names are collected. *)
Lemma non_trending_loop_spec (trending_repos : list string) (max_repos : nat)
    (keys filtered_repos : list string) :
  (length filtered_repos < max_repos)%nat →
  non_trending_loop trending_repos max_repos keys filtered_repos
  = filtered_repos
    ++ take (max_repos - length filtered_repos)
            (filter (λ repo_name, repo_name ∉ trending_repos) keys).
Proof.
  revert filtered_repos.
  induction keys as [|k keys IH]; intros acc Hlt; simpl.
  { by rewrite filter_nil, take_nil, app_nil_r. }
  rewrite filter_cons. destruct (decide (k ∉ trending_repos)) as [Hk|Hk].
  - destruct (max_repos - length acc)%nat as [|n] eqn:Hn; [lia|].
    case_decide as Hmax; rewrite length_app in Hmax; simpl in Hmax.
    + assert (n = 0%nat) as -> by lia. done.
    + rewrite IH by (rewrite length_app; simpl; lia).
      rewrite length_app, <-app_assoc. simpl. do 3 f_equal. lia.
  - rewrite decide_False by lia. by apply IH.
Qed.

Lemma load_non_trending_repositories_take {C D} (data : list (Row C D))
    (trending_repos : list string) :
  trending_repos ≠ [] →
  load_non_trending_repositories data trending_repos
  = take (length trending_repos)
         (filter (λ repo_name, repo_name ∉ trending_repos)
                 (groupby_name_repo_keys data)).
Proof.
  intros Hne. unfold load_non_trending_repositories.
  rewrite non_trending_loop_spec; simpl.
  - by rewrite Nat.sub_0_r.
  - destruct trending_repos; [done|simpl; lia].
Qed.

(** C6: with a non-empty viral list, the names selected are repositories
    of the corpus that are not viral, each selected once; they are as many
    as the viral ones when the corpus has that many non-viral repositories,
    and otherwise all the non-viral repositories of the corpus, fewer than
    the viral ones. *)
Theorem load_non_trending_repositories_balanced {C D} (data : list (Row C D))
    (trending_repos : list string) :
  trending_repos ≠ [] →
  let non_viral := load_non_trending_repositories data trending_repos in
  let eligible : gset string :=
    list_to_set (filter (λ repo_name, repo_name ∉ trending_repos)
                        (name_repo <$> data)) in
  (∀ x, x ∈ non_viral → x ∈ name_repo <$> data ∧ x ∉ trending_repos)
  ∧ NoDup non_viral
  ∧ ((length trending_repos ≤ size eligible)%nat →
     length non_viral = length trending_repos)
  ∧ ((size eligible < length trending_repos)%nat →
     length non_viral = size eligible
     ∧ (length non_viral < length trending_repos)%nat).
Proof.
  intros Hne non_viral eligible.
  destruct (groupby_name_repo_keys_spec data) as (_ & Hnd & Hin).
  set (keys := groupby_name_repo_keys data) in *.
  set (candidates := filter (λ repo_name, repo_name ∉ trending_repos) keys).
  assert (Hres : non_viral = take (length trending_repos) candidates).
  { by apply load_non_trending_repositories_take. }
  assert (Hcand : NoDup candidates) by by apply NoDup_filter.
  assert (Hsize : size eligible = length candidates).
  { rewrite <-(size_list_to_set (C:=gset string)) by done. f_equal.
    apply set_eq. intros x. unfold eligible, candidates.
    rewrite !elem_of_list_to_set, !list_elem_of_filter, Hin. done. }
  split; [|split; [|split]].
  - intros x. rewrite Hres. intros Hx.
    apply (elem_of_submseteq _ candidates) in Hx; [|apply submseteq_take].
    apply list_elem_of_filter in Hx as [? Hx]. by rewrite <-Hin.
  - rewrite Hres. eapply sublist_NoDup; [done|apply sublist_take].
  - intros Hle. rewrite Hres, length_take. lia.
  - intros Hlt. rewrite Hres, length_take. lia.
Qed.

Lemma load_non_trending_repositories_balanced_witness :
  length (load_non_trending_repositories unsorted_corpus ["trendy/repo"])
  = length ["trendy/repo"].
Proof.
  apply (load_non_trending_repositories_balanced unsorted_corpus ["trendy/repo"]).
  - done.
  - vm_compute. lia.
Defined.

(** C7 (as amended): with a non-empty viral list, the names selected are
    the first non-viral repositories in ascending order of name: the group
    keys hold each name of the corpus once, in ascending order, and the
    selection is an initial segment of the non-viral ones among them. *)
Theorem load_non_trending_repositories_sorted_order {C D} (data : list (Row C D))
    (trending_repos : list string) :
  trending_repos ≠ [] →
  let keys := groupby_name_repo_keys data in
  load_non_trending_repositories data trending_repos
  = take (length trending_repos)
         (filter (λ repo_name, repo_name ∉ trending_repos) keys)
  ∧ StronglySorted String.le keys
  ∧ NoDup keys
  ∧ (∀ x, x ∈ keys ↔ x ∈ name_repo <$> data).
Proof.
  intros Hne keys. split.
  - by apply load_non_trending_repositories_take.
  - apply groupby_name_repo_keys_spec.
Qed.

Lemma load_non_trending_repositories_sorted_order_witness :
  load_non_trending_repositories unsorted_corpus ["trendy/repo"]
  = take 1 (filter (λ repo_name, repo_name ∉ ["trendy/repo"])
                   (groupby_name_repo_keys unsorted_corpus)).
Proof.
  apply (load_non_trending_repositories_sorted_order
           unsorted_corpus ["trendy/repo"]).
  done.
Defined.

(** C7, counterexample: in a corpus where [zeta/app] occurs before
    [alpha/lib], the name selected first is [alpha/lib], not the first one
    encountered. *)
Lemma load_non_trending_repositories_not_first_encountered :
  ¬ (∀ (i : nat) (x : string),
       load_non_trending_repositories unsorted_corpus ["trendy/repo"] !! i
       = Some x →
       first_encountered_eligible unsorted_corpus ["trendy/repo"] !! i
       = Some x).
Proof.
  intros H. specialize (H 0%nat "alpha/lib" eq_refl).
  vm_compute in H. discriminate.
Qed.

(** ** The run *)

Lemma load_cleaned_csv_world (w : World) :
  outcome_world (load_cleaned_csv w) = w.
Proof.
  unfold load_cleaned_csv, mbind, Py_bind, gets. simpl.
  destruct (cleaned_csv_dir w) as [files|]; [|done].
  by destruct (omap _ files).
Qed.

Lemma load_trending_repositories_unusable (w : World) :
  trending_list_unusable (trending_csv w) →
  load_trending_repositories w = SystemExit (Some 1%Z) w.
Proof.
  unfold trending_list_unusable, load_trending_repositories, try_except.
  unfold mbind, Py_bind, gets, read_csv. simpl.
  destruct (trending_csv w) as [| |t]; simpl; [done..|].
  destruct (t !! "repository") as [column|]; simpl; [|done].
  by intros ->.
Qed.

(** C8: when the trending list gives no repository, loading it ends the
    run with [exit(1)]: [main] does not return, it leaves the outside world
    as it found it (no image, no feature table written), and it ends with
    that very exit when the corpus could be loaded. *)
Theorem main_aborts_without_trending_list (w : World) :
  trending_list_unusable (trending_csv w) →
  load_trending_repositories w = SystemExit (Some 1%Z) w
  ∧ outcome_world (main w) = w
  ∧ (∀ u w', main w ≠ Returns u w')
  ∧ (∀ data, load_cleaned_csv w = Returns data w →
       main w = SystemExit (Some 1%Z) w).
Proof.
  intros Hbad.
  pose proof (load_trending_repositories_unusable w Hbad) as Hexit.
  pose proof (load_cleaned_csv_world w) as Hw.
  split; [done|].
  assert (Hmain : main w = match load_cleaned_csv w with
                           | Returns _ _ => SystemExit (Some 1%Z) w
                           | Raises e _ => Raises e w
                           | SystemExit c _ => SystemExit c w
                           end).
  { unfold main, mbind at 1, Py_bind at 1.
    destruct (load_cleaned_csv w) as [data w1|e w1|c w1];
      simpl in Hw; subst w1; [|done..].
    unfold mbind at 1, Py_bind at 1. by rewrite Hexit. }
  rewrite Hmain.
  destruct (load_cleaned_csv w) as [data w1|e w1|c w1]; by repeat split.
Qed.

Lemma main_aborts_without_trending_list_witness :
  main (mkWorld (cleaned_csv_dir scenario_world) Missing
                (features_csv scenario_world) None (λ _, true) "2024-05-02")
  = SystemExit (Some 1%Z)
      (mkWorld (cleaned_csv_dir scenario_world) Missing
               (features_csv scenario_world) None (λ _, true) "2024-05-02").
Proof.
  eapply (main_aborts_without_trending_list
            (mkWorld (cleaned_csv_dir scenario_world) Missing
                     (features_csv scenario_world) None (λ _, true) "2024-05-02")).
  - exact I.
  - reflexivity.
Defined.

Lemma generate_loop_returns (dati : list NormalizedEvent)
    (repo_list_virale repos : list string) (df_features : list RepoFeatureRow)
    (w : World) :
  ∃ rows w',
    generate_loop dati repo_list_virale repos df_features w
    = Returns (df_features ++ rows) w'
    ∧ features_csv w' = features_csv w.
Proof.
  revert df_features w.
  induction repos as [|repo_name repos IH]; intros acc w; simpl.
  { exists [], w. by rewrite app_nil_r. }
  destruct (filter _ dati) as [|r dati_repo]; [apply IH|].
  unfold mbind, Py_bind, gets, modify. simpl.
  match goal with
  | |- context [generate_loop _ _ _ (acc ++ [?row]) ?w1] =>
      destruct (IH (acc ++ [row]) w1) as (rows & w' & Heq & Hf);
      exists (row :: rows), w'
  end.
  rewrite Heq, <-app_assoc. split; [done|].
  rewrite Hf. by destruct (renders w _).
Qed.

Lemma generate_process_models_and_features_returns (dati : list NormalizedEvent)
    (repo_list_virale repo_list_non_virale : list string) (w : World) :
  ∃ df_features w',
    generate_process_models_and_features
      dati repo_list_virale repo_list_non_virale w
    = Returns df_features w'
    ∧ features_csv w' = features_csv w.
Proof.
  unfold generate_process_models_and_features, mbind, Py_bind, modify.
  match goal with
  | |- context [generate_loop ?d ?v ?r [] ?w1] =>
      destruct (generate_loop_returns d v r [] w1) as (rows & w' & Heq & Hf)
  end.
  exists rows, w'. by rewrite Heq.
Qed.

(** C9: a run that gets as far as the accumulation step writes the feature
    table back with its [n] new rows appended: after a table of [m] rows,
    [m + n] rows, the [m] earlier ones first and as they were, whatever
    their [repo_name]; with no table yet, the [n] new rows alone. *)
Theorem main_appends_features (w : World) (data : list NormalizedEvent)
    (repo_list_virale : list string) :
  load_cleaned_csv w = Returns data w →
  load_trending_repositories w = Returns repo_list_virale w →
  features_csv w ≠ Broken →
  ∃ df_features w1 w2,
    generate_process_models_and_features data repo_list_virale
      (load_non_trending_repositories data repo_list_virale) w
    = Returns df_features w1
    ∧ main w = Returns () w2
    ∧ (∀ df_existing, features_csv w = Table df_existing →
         features_csv w2 = Table (df_existing ++ df_features)
         ∧ length (df_existing ++ df_features)
           = (length df_existing + length df_features)%nat
         ∧ take (length df_existing) (df_existing ++ df_features)
           = df_existing
         ∧ drop (length df_existing) (df_existing ++ df_features)
           = df_features)
    ∧ (features_csv w = Missing → features_csv w2 = Table df_features).
Proof.
  intros Hload Htrend Hfile.
  destruct (generate_process_models_and_features_returns data repo_list_virale
              (load_non_trending_repositories data repo_list_virale) w)
    as (df_features & w1 & Hgen & Hf).
  exists df_features, w1.
  unfold main, mbind at 1, Py_bind at 1. rewrite Hload.
  unfold mbind at 1, Py_bind at 1. rewrite Htrend.
  unfold mbind at 1, Py_bind at 1. rewrite Hgen.
  unfold mbind, Py_bind, gets, to_csv_features, modify, read_csv.
  rewrite Hf.
  destruct (features_csv w) as [| |df_existing]; [|done|]; simpl;
    eexists; (split; [done|]); (split; [done|]); simpl.
  - split; [intros ? [=]|done].
  - split; [|intros [=]]. intros ? [= <-].
    by rewrite length_app, take_app_length, drop_app_length.
Qed.

Lemma main_appends_features_witness :
  ∃ df_features w2,
    main scenario_world = Returns () w2
    ∧ features_csv w2 = Table (earlier_row :: df_features)
    ∧ repo_name <$> df_features = ["o/R_2024-05-02"].
Proof.
  destruct (main_appends_features scenario_world
              (clean_data scenario_to_datetime scenario) ["o/R"])
    as (df_features & w1 & w2 & Hgen & Hmain & Hexisting & _).
  - reflexivity.
  - reflexivity.
  - discriminate.
  - exists df_features, w2. split; [exact Hmain|].
    split; [exact (proj1 (Hexisting [earlier_row] eq_refl))|].
    vm_compute in Hgen. injection Hgen as <- _. reflexivity.
Defined.

(** ** The scenario of three events *)

(** C10: for one repository with a [WatchEvent]/[started] at 0 s, a
    [PushEvent] at 10 s and a [WatchEvent]/[started] at 30 s, the
    normalized types are [StarEvent], [PushEvent], [StarEvent]; the graph
    has the two edges [StarEvent -> PushEvent] and [PushEvent -> StarEvent],
    each counted once, 2 nodes, 2 edges and density 1; two thirds of the
    events are [StarEvent] and the mean gap is 15 s. *)
Theorem scenario_features (to_datetime : string → Timestamp) (case_id : string) :
  to_datetime "1970-01-01T00:00:00Z" = Some 0%Z →
  to_datetime "1970-01-01T00:00:10Z" = Some 10%Z →
  to_datetime "1970-01-01T00:00:30Z" = Some 30%Z →
  let df := clean_data to_datetime scenario in
  let log := format_dataframe case_id (filter (λ r, name_repo r = "o/R") df) in
  type_event <$> df = ["StarEvent"; "PushEvent"; "StarEvent"]
  ∧ time_diff <$> df = [None; Some 10%Z; Some 20%Z]
  ∧ dfg_algorithm_apply log
    = {[ ("StarEvent", "PushEvent") := 1%nat;
         ("PushEvent", "StarEvent") := 1%nat ]}
  ∧ num_nodi (extract_dfg_metrics log) = 2%nat
  ∧ num_archi (extract_dfg_metrics log) = 2%nat
  ∧ (densità_dfg (extract_dfg_metrics log) == 1)%Q
  ∧ (percentuale_StarEvent (extract_features_from_log log) == 2 # 3)%Q
  ∧ ∃ q, tempo_medio_eventi (extract_features_from_log log) = Some q
         ∧ (q == 15)%Q.
Proof.
  intros H0 H10 H30 df log.
  assert (Hdf : df = clean_data scenario_to_datetime scenario).
  { unfold df, clean_data, convert_created_at, scenario. simpl.
    by rewrite H0, H10, H30. }
  unfold log. rewrite Hdf.
  split; [by vm_compute|]. split; [by vm_compute|].
  split; [by vm_compute|]. split; [by vm_compute|].
  split; [by vm_compute|]. split; [by vm_compute|].
  split; [by vm_compute|].
  eexists. split; [by vm_compute|]. by vm_compute.
Qed.

Lemma scenario_features_witness :
  type_event <$> clean_data scenario_to_datetime scenario
  = ["StarEvent"; "PushEvent"; "StarEvent"].
Proof.
  apply (scenario_features scenario_to_datetime "o/R_2024-05-02");
    reflexivity.
Defined.

(** * Further properties of the code *)

(** ** The Event Normalizer, as a whole *)

Lemma StronglySorted_fmap_inv {A B} (f : A → B) (R1 : relation A)
    (R2 : relation B) (l : list A) :
  (∀ x y, R2 (f x) (f y) → R1 x y) →
  StronglySorted R2 (f <$> l) → StronglySorted R1 l.
Proof.
  intros Hf. induction l as [|x l IH]; [constructor|].
  rewrite fmap_cons. inversion_clear 1 as [|? ? Hl Hx].
  constructor; [by apply IH|].
  rewrite Forall_fmap in Hx. eapply Forall_impl; [done|]. simpl. auto.
Qed.

(** X1: [clean_data] returns as many rows as it is given, and the whole
    table is in ascending order of [id_repo], then of [created_at] with the
    null timestamps of a repository after its other rows: every row comes
    before the rows that follow it in that order. *)
Theorem clean_data_sorted_table (to_datetime : string → Timestamp)
    (df : list RawEvent) :
  length (clean_data to_datetime df) = length df
  ∧ StronglySorted key_le (clean_data to_datetime df)
  ∧ StronglySorted Z.le (id_repo <$> clean_data to_datetime df).
Proof.
  assert (Hlen : length (clean_data to_datetime df) = length df).
  { rewrite <-(length_fmap (set_time_diff ())), clean_data_drop_time_diff.
    unfold relabel, sort_values_id_repo_created_at, convert_created_at.
    by rewrite length_fmap, length_stable_sort, length_fmap. }
  assert (Hsorted : StronglySorted key_le (clean_data to_datetime df)).
  { apply (StronglySorted_fmap_inv (set_time_diff ()) _ key_le); [done|].
    rewrite clean_data_drop_time_diff. unfold relabel.
    apply (StronglySorted_fmap _ key_le); [done|].
    apply Sorted_StronglySorted; [apply _|]. apply Sorted_stable_sort, _. }
  split; [done|]. split; [done|].
  eapply StronglySorted_fmap; [|done].
  intros x y [?|[? _]]; lia.
Qed.

(** X2: no row of the table [clean_data] returns is a [WatchEvent] with
    action [started]; the types and actions of its rows are those of the
    input rows, the [WatchEvent]/[started] ones turned into [StarEvent] and
    every other type kept. *)
Theorem clean_data_relabelled (to_datetime : string → Timestamp)
    (df : list RawEvent) :
  Forall (λ r, ¬ (type_event r = "WatchEvent"
                  ∧ action_payload r = Some "started"))
         (clean_data to_datetime df)
  ∧ (λ r, (type_event r, action_payload r)) <$> clean_data to_datetime df
    ≡ₚ (λ r, (if decide (type_event r = "WatchEvent"
                          ∧ action_payload r = Some "started")
              then "StarEvent" else type_event r,
              action_payload r)) <$> df.
Proof.
  split.
  - unfold clean_data, relabel. apply Forall_fmap, Forall_forall.
    intros r _. simpl. unfold relabel_row.
    case_bool_decide as H; [by intros [? _]|]. by intros ?.
  - transitivity ((λ r : Row Timestamp (), (type_event r, action_payload r))
                    <$> (set_time_diff () <$> clean_data to_datetime df)).
    { by rewrite <-list_fmap_compose. }
    rewrite clean_data_drop_time_diff. unfold relabel, convert_created_at.
    rewrite <-list_fmap_compose.
    unfold sort_values_id_repo_created_at. rewrite stable_sort_Permutation.
    rewrite <-list_fmap_compose. apply reflexive_eq, list_fmap_ext.
    intros _ r _. simpl. unfold relabel_row. simpl.
    case_bool_decide; case_decide; done.
Qed.

(** ** The Repository Selector, at its edges *)

(** X3: with an empty viral list [max_repos] is 0, but the test that ends
    the loop comes after the first name is appended: the function returns
    the first group key alone, one name for any corpus that has a row. *)
Theorem load_non_trending_repositories_empty_viral {C D} (data : list (Row C D)) :
  load_non_trending_repositories data [] = take 1 (groupby_name_repo_keys data)
  ∧ (data ≠ [] → length (load_non_trending_repositories data []) = 1%nat).
Proof.
  assert (Heq : load_non_trending_repositories data []
                = take 1 (groupby_name_repo_keys data)).
  { unfold load_non_trending_repositories. simpl.
    destruct (groupby_name_repo_keys data) as [|k keys]; [done|]. simpl.
    by rewrite take_0. }
  split; [done|]. intros Hne. rewrite Heq.
  destruct (groupby_name_repo_keys_spec data) as (_ & _ & Hin).
  destruct data as [|r data]; [done|].
  destruct (groupby_name_repo_keys (r :: data)) as [|k keys] eqn:Hk; [|done].
  specialize (Hin (name_repo r)). rewrite fmap_cons in Hin.
  assert (name_repo r ∈ @nil string) as []%elem_of_nil. apply Hin. left.
Qed.

Lemma load_non_trending_repositories_empty_viral_witness :
  length (load_non_trending_repositories unsorted_corpus []) = 1%nat.
Proof.
  apply (load_non_trending_repositories_empty_viral unsorted_corpus).
  discriminate.
Defined.




(** ** The Feature Extractor *)

(** The dictionary of counts holds, for each value, its number of
    occurrences. *)
Lemma value_counts_lookup (s : list string) (m : gmap string nat) (x : string) :
  default 0%nat
    (foldl (λ m x, <[x := S (default 0%nat (m !! x))]> m) m s !! x)
  = (default 0%nat (m !! x) + length (filter (λ y, y = x) s))%nat.
Proof.
  revert m. induction s as [|y s IH]; intros m; simpl; [lia|].
  rewrite IH, filter_cons. destruct (decide (y = x)) as [->|].
  - rewrite lookup_insert_eq. simpl. lia.
  - by rewrite lookup_insert_ne.
Qed.

(** X5: [percentuale_StarEvent] is the number of [StarEvent] rows of the
    log divided by the number of rows, a value between 0 and 1 (0 for an
    empty log). *)
Theorem extract_features_from_log_star_share (log : list LogRow) :
  let stars := length (filter (λ r, concept_name r = "StarEvent") log) in
  let p := percentuale_StarEvent (extract_features_from_log log) in
  (p == inject_Z (Z.of_nat stars) / inject_Z (Z.of_nat (length log)))%Q
  ∧ (0 <= p)%Q ∧ (p <= 1)%Q.
Proof.
  intros stars p.
  assert (Hstars : (stars ≤ length log)%nat) by apply length_filter.
  set (sorted := sort_by_timestamp log).
  assert (Hlen : length sorted = length log) by apply length_stable_sort.
  assert (Hcount : length (filter (λ y, y = "StarEvent")
                             (concept_name <$> sorted)) = stars).
  { rewrite filter_fmap, length_fmap. unfold stars, sorted, sort_by_timestamp.
    by rewrite stable_sort_Permutation. }
  assert (Hp : (p == inject_Z (Z.of_nat stars)
                     / inject_Z (Z.of_nat (length log)))%Q).
  { unfold p, extract_features_from_log, value_counts_normalize. simpl.
    fold sorted. rewrite lookup_fmap, length_fmap, Hlen.
    pose proof (value_counts_lookup (concept_name <$> sorted) ∅ "StarEvent")
      as Hc.
    rewrite lookup_empty, Hcount in Hc. simpl in Hc.
    destruct (foldl _ ∅ (concept_name <$> sorted) !! "StarEvent") as [c|];
      simpl in *; subst stars.
    - by rewrite Hc.
    - rewrite <-Hc. unfold Qdiv. by rewrite Qmult_0_l. }
  split; [done|]. rewrite Hp.
  destruct (decide (length log = 0%nat)) as [H0|H0].
  - rewrite H0. assert (stars = 0%nat) as -> by lia. by vm_compute.
  - destruct (Qdiv_nat_bounds stars (length log) 1) as [? ?]; [lia|lia|done].
Qed.

#[global] Instance log_le_total : Total log_le.
Proof. intros r1 r2. apply (total ts_le). Qed.

#[global] Instance log_le_trans : Transitive log_le.
Proof. intros r1 r2 r3. apply (transitivity (R:=ts_le)). Qed.







(** ** The Process Model Extractor *)







(** ** Building the cases *)

Lemma generate_loop_rows (dati : list NormalizedEvent)
    (repo_list_virale repos : list string) (df_features : list RepoFeatureRow)
    (w : World) (images : gset string) :
  process_models_dir w = Some images →
  ∃ rows w',
    generate_loop dati repo_list_virale repos df_features w
    = Returns (df_features ++ rows) w'
    ∧ (λ row, (repo_name row, virale row)) <$> rows
      = (λ n, (n +:+ "_" +:+ today w, bool_decide (n ∈ repo_list_virale)))
          <$> filter (λ n, n ∈ name_repo <$> dati) repos
    ∧ only_images_added images w w'.
Proof.
  revert df_features w images.
  induction repos as [|n repos IH]; intros acc w images Hdir; simpl.
  { exists [], w. rewrite app_nil_r. by repeat split; eauto. }
  rewrite filter_cons.
  destruct (filter (λ r, name_repo r = n) dati) as [|r dati_repo] eqn:Hrepo.
  - rewrite decide_False.
    2:{ intros (r & Hr & Hin)%list_elem_of_fmap.
        assert (r ∈ filter (λ r, name_repo r = n) dati) as Hf
          by by apply list_elem_of_filter.
        rewrite Hrepo in Hf. by apply elem_of_nil in Hf. }
    by apply IH.
  - rewrite decide_True.
    2:{ assert (r ∈ filter (λ r, name_repo r = n) dati) as Hf
          by (rewrite Hrepo; left).
        apply list_elem_of_filter in Hf as [<- ?].
        by apply list_elem_of_fmap_2. }
    unfold mbind, Py_bind, gets, modify. simpl.
    match goal with
    | |- context [generate_loop _ _ _ (acc ++ [?row]) ?wnext] =>
        set (row0 := row); set (w1 := wnext)
    end.
    assert (Hw1 : ∃ images1, process_models_dir w1 = Some images1
                             ∧ images ⊆ images1
                             ∧ cleaned_csv_dir w1 = cleaned_csv_dir w
                             ∧ trending_csv w1 = trending_csv w
                             ∧ features_csv w1 = features_csv w
                             ∧ renders w1 = renders w
                             ∧ today w1 = today w).
    { unfold w1. destruct (renders w _); simpl.
      - rewrite Hdir. simpl. eexists. split; [done|]. split; [set_solver|done].
      - by exists images. }
    destruct Hw1 as (images1 & Hdir1 & Hsub & Hc & Ht & Hf & Hr & Hd).
    destruct (IH (acc ++ [row0]) w1 images1 Hdir1)
      as (rows & w' & Heq & Hrows & Hc' & Ht' & Hf' & Hr' & Hd' & images' & Hi & Hs).
    exists (row0 :: rows), w'. rewrite Heq, <-app_assoc. split; [done|]. split.
    + rewrite fmap_cons, Hrows, Hd. done.
    + repeat split; try congruence. exists images'. split; [done|set_solver].
Qed.

(** X8: [generate_process_models_and_features] always returns.  Its rows
    are, in order, one for each name of the viral list and then of the
    non-viral list that has an event in the corpus, named after the
    repository and the date of the run and flagged viral when the name is
    in the viral list; a name without event gives no row, and a rendering
    that fails changes nothing to the rows.  Apart from the images added,
    the run leaves the files as they are. *)
Theorem generate_process_models_and_features_rows (dati : list NormalizedEvent)
    (repo_list_virale repo_list_non_virale : list string) (w : World) :
  ∃ df_features w',
    generate_process_models_and_features
      dati repo_list_virale repo_list_non_virale w
    = Returns df_features w'
    ∧ (λ row, (repo_name row, virale row)) <$> df_features
      = (λ n, (n +:+ "_" +:+ today w, bool_decide (n ∈ repo_list_virale)))
          <$> filter (λ n, n ∈ name_repo <$> dati)
                     (repo_list_virale ++ repo_list_non_virale)
    ∧ only_images_added (default ∅ (process_models_dir w)) w w'.
Proof.
  unfold generate_process_models_and_features, mbind, Py_bind, modify.
  match goal with
  | |- context [generate_loop ?d ?v ?r [] ?w1] =>
      destruct (generate_loop_rows d v r [] w1
                  (default ∅ (process_models_dir w)) eq_refl)
        as (rows & w' & Heq & Hrows & Hw)
  end.
  exists rows, w'. rewrite Heq. done.
Qed.

(** X9: when the feature table exists but cannot be read, [main] stops
    with the exception of [pd.read_csv] after the cases are built, and the
    table is not written over. *)
Theorem main_keeps_unreadable_features (w : World) (data : list NormalizedEvent)
    (repo_list_virale : list string) :
  load_cleaned_csv w = Returns data w →
  load_trending_repositories w = Returns repo_list_virale w →
  features_csv w = Broken →
  ∃ w', main w = Raises EmptyDataError w' ∧ features_csv w' = Broken.
Proof.
  intros Hload Htrend Hfile.
  destruct (generate_process_models_and_features_returns data repo_list_virale
              (load_non_trending_repositories data repo_list_virale) w)
    as (df_features & w1 & Hgen & Hf).
  exists w1.
  unfold main, mbind at 1, Py_bind at 1. rewrite Hload.
  unfold mbind at 1, Py_bind at 1. rewrite Htrend.
  unfold mbind at 1, Py_bind at 1. rewrite Hgen.
  unfold mbind, Py_bind, gets, read_csv. rewrite Hf, Hfile. done.
Qed.

Lemma main_keeps_unreadable_features_witness :
  ∃ w',
    main (mkWorld (cleaned_csv_dir scenario_world) (trending_csv scenario_world)
                  Broken None (λ _, true) "2024-05-02")
    = Raises EmptyDataError w'
    ∧ features_csv w' = Broken.
Proof.
  apply (main_keeps_unreadable_features
           (mkWorld (cleaned_csv_dir scenario_world)
                    (trending_csv scenario_world)
                    Broken None (λ _, true) "2024-05-02")
           (clean_data scenario_to_datetime scenario) ["o/R"]);
    reflexivity.
Defined.


(** ** Loading the cleaned files ([load_cleaned_csv]) *)



Module data_collection_facts.
Import data_collection.

(** ** Removing the files of earlier runs ([clean_unused_files]) *)

Lemma read_file_remove_file (d d' f f' : string) (fs : FileSystem) :
  read_file d f (remove_file d' f' fs)
  = if decide (d = d' ∧ f = f') then None else read_file d f fs.
Proof.
  unfold read_file, remove_file.
  destruct (decide (d = d')) as [->|Hd].
  - rewrite lookup_alter_eq. destruct (fs !! d') as [listing|]; simpl.
    + destruct (decide (f = f')) as [->|Hf].
      * rewrite decide_True by done. apply lookup_delete_eq.
      * rewrite decide_False by naive_solver. by apply lookup_delete_ne.
    + by case_decide.
  - rewrite lookup_alter_ne by done. rewrite decide_False by naive_solver. done.
Qed.

Lemma read_file_write_file (d d' f f' c : string) (fs : FileSystem) :
  is_Some (fs !! d') →
  read_file d f (write_file d' f' c fs)
  = if decide (d = d' ∧ f = f') then Some c else read_file d f fs.
Proof.
  intros [listing Hl]. unfold read_file, write_file.
  destruct (decide (d = d')) as [->|Hd].
  - rewrite lookup_alter_eq, Hl. simpl.
    destruct (decide (f = f')) as [->|Hf].
    + rewrite decide_True by done. apply lookup_insert_eq.
    + rewrite decide_False by naive_solver. by apply lookup_insert_ne.
  - rewrite lookup_alter_ne by done. rewrite decide_False by naive_solver. done.
Qed.

Lemma is_Some_alter_dir (g : gmap string string → gmap string string)
    (d d' : string) (fs : FileSystem) :
  is_Some (alter g d' fs !! d) ↔ is_Some (fs !! d).
Proof.
  destruct (decide (d = d')) as [->|].
  - rewrite lookup_alter_eq. by rewrite fmap_is_Some.
  - by rewrite lookup_alter_ne.
Qed.

(** The loop of [clean_unused_files] over any list of names. *)
Lemma clean_unused_loop (o : Outside) (directory : string)
    (processed_files : gset string) (file_extension : string)
    (names : list string) (fs : FileSystem) :
  let fs' :=
    foldl (λ fs filename,
             if endswith filename file_extension
                && bool_decide (filename ∉ processed_files)
             then
               let file_path := path_join directory filename in
               if os_remove o file_path then remove_file directory filename fs
               else fs
             else fs)
          fs names in
  (∀ d, is_Some (fs' !! d) ↔ is_Some (fs !! d))
  ∧ ∀ d f,
      read_file d f fs'
      = if decide (d = directory ∧ f ∈ names
                   ∧ endswith f file_extension = true
                   ∧ (f ∉ processed_files)
                   ∧ os_remove o (path_join directory f) = true)
        then None else read_file d f fs.
Proof.
  revert fs. induction names as [|n names IH]; intros fs; simpl.
  { split; [done|]. intros d f. rewrite decide_False; [done|].
    intros (_ & []%elem_of_nil & _). }
  match goal with |- context [foldl _ ?x names] => set (fs1 := x) end.
  destruct (IH fs1) as [Hdirs Hread]. split.
  - intros d. rewrite Hdirs. unfold fs1.
    destruct (_ && _); [|done]. simpl.
    destruct (os_remove o _); [|done]. apply is_Some_alter_dir.
  - intros d f. rewrite Hread.
    assert (Hfs1 : read_file d f fs1
              = if decide (d = directory ∧ f = n
                           ∧ endswith f file_extension = true
                           ∧ (f ∉ processed_files)
                           ∧ os_remove o (path_join directory f) = true)
                then None else read_file d f fs).
    { unfold fs1.
      destruct (endswith n file_extension) eqn:He; simpl.
      2:{ rewrite decide_False; [done|]. intros (_ & -> & ? & _). congruence. }
      case_bool_decide as Hp; simpl.
      2:{ rewrite decide_False; [done|]. by intros (_ & -> & _ & ? & _). }
      destruct (os_remove o (path_join directory n)) eqn:Hr.
      2:{ rewrite decide_False; [done|]. intros (_ & -> & _ & _ & ?). congruence. }
      rewrite read_file_remove_file.
      destruct (decide (d = directory ∧ f = n)) as [[-> ->]|Hne].
      - by rewrite decide_True.
      - rewrite decide_False; [done|]. naive_solver. }
    rewrite Hfs1. clear.
    repeat case_decide; try done; exfalso; rewrite elem_of_cons in *; tauto.
Qed.

Lemma clean_unused_files_spec (o : Outside) (directory : string)
    (processed_files : gset string) (file_extension : string)
    (fs : FileSystem) :
  (fs !! directory = None →
   clean_unused_files o directory processed_files file_extension fs = None)
  ∧ (is_Some (fs !! directory) →
     ∃ fs',
       clean_unused_files o directory processed_files file_extension fs
       = Some fs'
       ∧ (∀ d, is_Some (fs' !! d) ↔ is_Some (fs !! d))
       ∧ ∀ d f,
           read_file d f fs'
           = if decide (d = directory
                        ∧ endswith f file_extension = true
                        ∧ (f ∉ processed_files)
                        ∧ os_remove o (path_join directory f) = true)
             then None else read_file d f fs).
Proof.
  unfold clean_unused_files. split.
  { by intros ->. }
  intros [listing Hl]. rewrite Hl. simpl. eexists. split; [done|].
  destruct (clean_unused_loop o directory processed_files file_extension
              (map_to_list listing).*1 fs) as [Hdirs Hread].
  split; [done|]. intros d f. rewrite Hread.
  destruct (decide (f ∈ (map_to_list listing).*1)) as [Hin|Hin].
  { clear -Hin. repeat case_decide; try done; exfalso; tauto. }
  assert (d = directory → read_file d f fs = None) as Hnone.
  { intros ->. unfold read_file. rewrite Hl. simpl.
    apply eq_None_not_Some. intros [c Hc]. apply Hin.
    apply list_elem_of_fmap. exists (f, c). by rewrite elem_of_map_to_list. }
  clear -Hin Hnone.
  repeat case_decide; try done;
    first [apply Hnone; tauto | exfalso; tauto].
Qed.

(** X11: on a directory that exists, [clean_unused_files] removes exactly
    the files of the directory whose name ends with the extension, is not
    among the processed files, and that [os.remove] manages to remove.
    Every other file of the directory, and every file of another
    directory, keeps its content; no directory appears or disappears.  On
    a directory that does not exist the call raises. *)
Theorem clean_unused_files_removes (o : Outside) (directory : string)
    (processed_files : gset string) (file_extension : string)
    (fs : FileSystem) :
  (fs !! directory = None →
   clean_unused_files o directory processed_files file_extension fs = None)
  ∧ (is_Some (fs !! directory) →
     ∃ fs',
       clean_unused_files o directory processed_files file_extension fs
       = Some fs'
       ∧ (∀ d, is_Some (fs' !! d) ↔ is_Some (fs !! d))
       ∧ ∀ d f,
           read_file d f fs'
           = if decide (d = directory
                        ∧ endswith f file_extension = true
                        ∧ (f ∉ processed_files)
                        ∧ os_remove o (path_join directory f) = true)
             then None else read_file d f fs).
Proof. apply clean_unused_files_spec. Qed.


(** ** The hours to download ([download_files]) *)

Lemma download_window_spec (now : Z) :
  let '(start, end_) := download_window now in
  end_ - start = microseconds_per_day
  ∧ start `mod` microseconds_per_day = 11 * microseconds_per_hour
  ∧ end_ + 3 * microseconds_per_minute ≤ now
  ∧ now < end_ + microseconds_per_day + 3 * microseconds_per_minute.
Proof.
  unfold download_window, replace_time, microseconds_per_day,
    microseconds_per_hour, microseconds_per_minute.
  case_decide as Hnow; Z.to_euclidean_division_equations; lia.
Qed.

(** X12: whatever the time, the hours [download_files] asks for run from
    an 11:00 to the next 11:00, 24 hours later; that end lies at least 3
    minutes and less than 24 hours and 3 minutes before the time of the
    run. *)
Theorem download_window_day (now : Z) :
  let '(start, end_) := download_window now in
  end_ - start = microseconds_per_day
  ∧ start `mod` microseconds_per_day = 11 * microseconds_per_hour
  ∧ end_ + 3 * microseconds_per_minute ≤ now
  ∧ now < end_ + microseconds_per_day + 3 * microseconds_per_minute.
Proof. apply download_window_spec. Qed.

(** ** Downloading ([download_files]) *)

Lemma read_file_makedirs (p d f : string) (fs : FileSystem) :
  read_file d f (makedirs p fs) = read_file d f fs.
Proof.
  unfold makedirs, read_file. destruct (fs !! p) eqn:Hp; [done|].
  destruct (decide (d = p)) as [->|].
  - by rewrite lookup_insert_eq, Hp.
  - by rewrite lookup_insert_ne.
Qed.

Lemma is_Some_makedirs (p d : string) (fs : FileSystem) :
  is_Some (makedirs p fs !! d) ↔ d = p ∨ is_Some (fs !! d).
Proof.
  unfold makedirs. destruct (fs !! p) eqn:Hp.
  - split; [auto|]. intros [->|?]; [by rewrite Hp|done].
  - destruct (decide (d = p)) as [->|].
    + rewrite lookup_insert_eq. split; [auto|by eexists].
    + rewrite lookup_insert_ne by done. naive_solver.
Qed.

Lemma download_loop_foldl (o : Outside) (n fuel : nat) (current end_ : Z)
    (state : FileSystem * gset string) :
  end_ - current = Z.of_nat n * microseconds_per_hour →
  (n ≤ fuel)%nat →
  download_loop o fuel current end_ state
  = foldl (λ state current, download_one o current state) state
          ((λ k : nat, current + Z.of_nat k * microseconds_per_hour)
             <$> seq 0 n).
Proof.
  revert fuel current state.
  induction n as [|n IH]; intros fuel current state Hend Hfuel.
  - destruct fuel as [|fuel]; simpl; [done|].
    rewrite decide_False; [done|]. unfold microseconds_per_hour in *. lia.
  - destruct fuel as [|fuel]; [lia|]. simpl.
    rewrite decide_True by (unfold microseconds_per_hour in *; lia).
    rewrite (IH fuel) by (unfold microseconds_per_hour in *; lia).
    rewrite Z.add_0_r. f_equal.
    rewrite <-fmap_S_seq, <-list_fmap_compose. apply list_fmap_ext.
    intros _ k _. simpl. unfold microseconds_per_hour. lia.
Qed.

Lemma downloaded_to_refl (o : Outside) (state : FileSystem * gset string) :
  downloaded_to o [] state state.
Proof.
  destruct state as [fs dl]. unfold downloaded_to. repeat split; try done.
  - by intros f []%elem_of_nil.
  - auto.
Qed.

Lemma downloaded_to_trans (o : Outside) (names1 names2 : list string)
    (s0 s1 s2 : FileSystem * gset string) :
  downloaded_to o names1 s0 s1 →
  downloaded_to o names2 s1 s2 →
  downloaded_to o (names1 ++ names2) s0 s2.
Proof.
  destruct s0 as [fs0 dl0], s1 as [fs1 dl1], s2 as [fs2 dl2].
  intros (A1 & A2 & A3 & A4 & A5 & A6 & A7) (B1 & B2 & B3 & B4 & B5 & B6 & B7).
  unfold downloaded_to. repeat split.
  - by rewrite B1, A1.
  - by rewrite B1, A1.
  - intros d f Hd. by rewrite B2, A2.
  - intros f c Hc. by apply B3, A3.
  - intros f Hf. specialize (A4 f Hf).
    destruct (read_file DATA_JSON_PATH f fs1) as [c|] eqn:H1.
    + rewrite (B3 f c H1).
      destruct (decide (f ∈ names1)) as [Hin|Hin]; [|done].
      rewrite decide_True by (apply elem_of_app; auto). done.
    + rewrite (B4 f H1).
      destruct (decide (f ∈ names1)) as [Hin|Hin].
      * rewrite (decide_True (P:=f ∈ names1 ++ names2))
          by (apply elem_of_app; auto).
        rewrite <-A4. by case_decide.
      * destruct (decide (f ∈ names2)) as [Hin2|Hin2].
        -- by rewrite decide_True by (apply elem_of_app; auto).
        -- rewrite decide_False; [done|]. rewrite elem_of_app. tauto.
  - auto.
  - intros f [Hin|Hin]%elem_of_app Hor.
    + by apply B5, A6.
    + apply B6; [done|]. destruct Hor as [[c Hc]|?]; [|auto].
      left. exists c. by apply A3.
  - intros f [Hf|Hf]%B7; [|rewrite elem_of_app; auto].
    apply A7 in Hf. rewrite elem_of_app. tauto.
Qed.

Lemma downloaded_to_one (o : Outside) (current : Z)
    (state : FileSystem * gset string) :
  is_Some (state.1 !! DATA_JSON_PATH) →
  downloaded_to o [archive_filename o current] state
                (download_one o current state).
Proof.
  destruct state as [fs dl]. simpl. intros Hdir.
  unfold download_one, downloaded_to, server_content.
  set (n := archive_filename o current).
  assert (Hw : ∀ c d f,
            read_file d f (write_file DATA_JSON_PATH n c fs)
            = if decide (d = DATA_JSON_PATH ∧ f = n) then Some c
              else read_file d f fs).
  { intros. by apply read_file_write_file. }
  destruct (read_file DATA_JSON_PATH n fs) as [c0|] eqn:Hn.
  { repeat split; try done.
    - intros f Hf. case_decide as Hin; [|done].
      apply list_elem_of_singleton in Hin as ->. congruence.
    - set_solver.
    - set_solver.
    - set_solver. }
  destruct (requests_get o ("https://data.gharchive.org/" +:+ n)) as [|ch|b] eqn:Hr.
  - repeat split; try done.
    + intros f Hf. case_decide as Hin; [|done].
      apply list_elem_of_singleton in Hin as ->. by rewrite Hr.
    + intros f ->%list_elem_of_singleton [[c Hc]|[b Hb]]; congruence.
    + auto.
  - repeat split.
    + by apply is_Some_alter_dir.
    + by apply is_Some_alter_dir.
    + intros d f Hd. rewrite Hw, decide_False; [done|]. tauto.
    + intros f c Hc. rewrite Hw, decide_False; [done|]. intros [_ ->]. congruence.
    + intros f Hf. rewrite Hw.
      destruct (decide (f = n)) as [->|Hne].
      * rewrite decide_True by done. rewrite decide_True by left. by rewrite Hr.
      * rewrite decide_False by tauto.
        rewrite decide_False; [done|]. by intros ?%list_elem_of_singleton.
    + done.
    + intros f ->%list_elem_of_singleton [[c Hc]|[b Hb]]; congruence.
    + auto.
  - repeat split.
    + by apply is_Some_alter_dir.
    + by apply is_Some_alter_dir.
    + intros d f Hd. rewrite Hw, decide_False; [done|]. tauto.
    + intros f c Hc. rewrite Hw, decide_False; [done|]. intros [_ ->]. congruence.
    + intros f Hf. rewrite Hw.
      destruct (decide (f = n)) as [->|Hne].
      * rewrite decide_True by done. rewrite decide_True by left. by rewrite Hr.
      * rewrite decide_False by tauto.
        rewrite decide_False; [done|]. by intros ?%list_elem_of_singleton.
    + set_solver.
    + set_solver.
    + set_solver.
Qed.

Lemma download_fold (o : Outside) (hours : list Z)
    (state : FileSystem * gset string) :
  is_Some (state.1 !! DATA_JSON_PATH) →
  downloaded_to o (archive_filename o <$> hours) state
    (foldl (λ state current, download_one o current state) state hours).
Proof.
  revert state. induction hours as [|h hours IH]; intros state Hdir; simpl.
  { apply downloaded_to_refl. }
  apply (downloaded_to_trans o [archive_filename o h] _ _
           (download_one o h state)).
  - by apply downloaded_to_one.
  - apply IH.
    pose proof (downloaded_to_one o h state Hdir) as Hone.
    destruct state as [fs dl], (download_one o h (fs, dl)) as [fs1 dl1].
    destruct Hone as (H1 & _). simpl in *. by apply H1.
Qed.


Lemma download_files_facts (o : Outside) (fs : FileSystem) :
  let names :=
    (λ k : nat, archive_filename o
                  ((download_window (now o)).1
                   + Z.of_nat k * microseconds_per_hour)) <$> seq 0 24 in
  ∃ fs',
    download_files o fs = Some fs'
    ∧ is_Some (fs' !! DATA_JSON_PATH)
    ∧ (∀ d, d ≠ DATA_JSON_PATH → is_Some (fs' !! d) ↔ is_Some (fs !! d))
    ∧ (∀ d f, d ≠ DATA_JSON_PATH → read_file d f fs' = read_file d f fs)
    ∧ (∀ f c, read_file DATA_JSON_PATH f fs = Some c →
         read_file DATA_JSON_PATH f fs'
         = if decide (endswith f ".json.gz" = true ∧ (f ∉ names)
                      ∧ os_remove o (path_join DATA_JSON_PATH f) = true)
           then None else Some c)
    ∧ (∀ f c, read_file DATA_JSON_PATH f fs = None →
         read_file DATA_JSON_PATH f fs' = Some c →
         f ∈ names ∧ server_content o f = Some c)
    ∧ (∀ f body, f ∈ names →
         read_file DATA_JSON_PATH f fs = None →
         requests_get o ("https://data.gharchive.org/" +:+ f)
         = Downloaded body →
         read_file DATA_JSON_PATH f fs' = Some body).
Proof.
  intros names. unfold download_files.
  pose proof (download_window_spec (now o)) as Hwin.
  unfold names. clear names.
  destruct (download_window (now o)) as [start end_].
  cbv beta iota zeta delta [fst]. destruct Hwin as (Hday & _).
  assert (Hfuel : (end_ - start) `div` microseconds_per_hour + 1 = 25).
  { rewrite Hday. reflexivity. }
  rewrite Hfuel.
  rewrite (download_loop_foldl o 24)
    by (rewrite ?Hday; unfold microseconds_per_day, microseconds_per_hour; lia).
  set (hours := (λ k : nat, start + Z.of_nat k * microseconds_per_hour)
                  <$> seq 0 24).
  assert (Hnames :
    (λ k : nat, archive_filename o (start + Z.of_nat k * microseconds_per_hour))
      <$> seq 0 24 = archive_filename o <$> hours).
  { unfold hours. by rewrite <-list_fmap_compose. }
  rewrite Hnames. set (names := archive_filename o <$> hours).
  pose proof (download_fold o hours (makedirs DATA_JSON_PATH fs, ∅)) as Hfold.
  fold names in Hfold.
  destruct (foldl _ (makedirs DATA_JSON_PATH fs, ∅) hours) as [fs1 dl1].
  destruct Hfold as (I1 & I2 & I3 & I4 & _ & I6 & I7).
  { simpl. apply is_Some_makedirs. auto. }
  assert (Hdir1 : is_Some (fs1 !! DATA_JSON_PATH)).
  { apply I1, is_Some_makedirs. auto. }
  destruct (proj2 (clean_unused_files_spec o DATA_JSON_PATH dl1 ".json.gz" fs1)
              Hdir1) as (fs' & Hclean & C1 & C2).
  exists fs'. split; [done|]. split; [by apply C1|].
  split.
  { intros d Hd. rewrite C1, I1, is_Some_makedirs. naive_solver. }
  split.
  { intros d f Hd. rewrite C2, decide_False by tauto.
    by rewrite I2, read_file_makedirs. }
  assert (Hdl : ∀ f, f ∈ dl1 → f ∈ names).
  { intros f [Hf|Hf]%I7; [|done]. by apply elem_of_empty in Hf. }
  split; [|split].
  - intros f c Hc. rewrite C2.
    assert (read_file DATA_JSON_PATH f fs1 = Some c) as ->.
    { apply I3. by rewrite read_file_makedirs. }
    assert (f ∈ dl1 ↔ f ∈ names) as Hiff.
    { split; [apply Hdl|]. intros Hin. apply I6; [done|].
      left. rewrite read_file_makedirs, Hc. by eexists. }
    clear -Hiff. repeat case_decide; try done; exfalso; tauto.
  - intros f c Hnone. rewrite C2. case_decide as Hrm; [done|].
    rewrite I4 by by rewrite read_file_makedirs.
    case_decide; [|done]. done.
  - intros f body Hin Hnone Hget. rewrite C2.
    assert (f ∈ dl1) as Hf by (apply I6; eauto).
    rewrite decide_False by tauto.
    rewrite I4 by by rewrite read_file_makedirs.
    rewrite decide_True by done. unfold server_content. by rewrite Hget.
Qed.


Lemma download_files_Some (o : Outside) (fs : FileSystem) :
  ∃ fs', download_files o fs = Some fs' ∧ is_Some (fs' !! DATA_JSON_PATH).
Proof.
  destruct (download_files_facts o fs) as (fs' & ? & ? & _). by exists fs'.
Qed.

(** X13: [download_files] never raises.  It leaves the other directories
    alone.  In the directory of the archives, a file that is already there
    is never downloaded again: it keeps its content, unless it is a
    [.json.gz] file that is not one of the 24 hours asked for, which is
    removed when [os.remove] succeeds.  A file that was not there and is
    there afterwards is one of the 24, with what the server sent; when the
    server sent the whole body, the file is there with it. *)
Theorem download_files_spec (o : Outside) (fs : FileSystem) :
  let names :=
    (λ k : nat, archive_filename o
                  ((download_window (now o)).1
                   + Z.of_nat k * microseconds_per_hour)) <$> seq 0 24 in
  ∃ fs',
    download_files o fs = Some fs'
    ∧ is_Some (fs' !! DATA_JSON_PATH)
    ∧ (∀ d, d ≠ DATA_JSON_PATH → is_Some (fs' !! d) ↔ is_Some (fs !! d))
    ∧ (∀ d f, d ≠ DATA_JSON_PATH → read_file d f fs' = read_file d f fs)
    ∧ (∀ f c, read_file DATA_JSON_PATH f fs = Some c →
         read_file DATA_JSON_PATH f fs'
         = if decide (endswith f ".json.gz" = true ∧ (f ∉ names)
                      ∧ os_remove o (path_join DATA_JSON_PATH f) = true)
           then None else Some c)
    ∧ (∀ f c, read_file DATA_JSON_PATH f fs = None →
         read_file DATA_JSON_PATH f fs' = Some c →
         f ∈ names ∧ server_content o f = Some c)
    ∧ (∀ f body, f ∈ names →
         read_file DATA_JSON_PATH f fs = None →
         requests_get o ("https://data.gharchive.org/" +:+ f)
         = Downloaded body →
         read_file DATA_JSON_PATH f fs' = Some body).
Proof. apply download_files_facts. Qed.

(** ** From the lines of an archive to rows ([process_files]) *)

(** X14: a line gives a row exactly when it is the text of a JSON object
    with the keys [type], [created_at], an [actor] object with [id],
    [login] and [url], a [repo] object with [url], [id] and [name], and a
    [payload] object; the cell [action_payload] is the [action] of the
    payload, null when the payload has none. *)
Theorem event_row_inr (o : Outside) (line : string) (row : list JSON) :
  event_row o line = inr row ↔
  ∃ event actor repo payload type_event id_actor login_actor url_actor
      url_repo id_repo name_repo created_at,
    json_loads o line = Some (JObject event)
    ∧ event !! "type" = Some type_event
    ∧ event !! "actor" = Some (JObject actor)
    ∧ actor !! "id" = Some id_actor
    ∧ actor !! "login" = Some login_actor
    ∧ actor !! "url" = Some url_actor
    ∧ event !! "repo" = Some (JObject repo)
    ∧ repo !! "url" = Some url_repo
    ∧ repo !! "id" = Some id_repo
    ∧ repo !! "name" = Some name_repo
    ∧ event !! "payload" = Some (JObject payload)
    ∧ event !! "created_at" = Some created_at
    ∧ row = [type_event; id_actor; login_actor; url_actor; url_repo; id_repo;
             name_repo; default JNull (payload !! "action"); created_at].
Proof.
  unfold event_row. split.
  - destruct (json_loads o line) as [[| | | | |event]|] eqn:Hj; try done.
    unfold getitem, get, and_then.
    destruct (event !! "type") as [type_event|] eqn:Ht; [|done].
    destruct (event !! "actor") as [[| | | | |actor]|] eqn:Ha; try done.
    destruct (actor !! "id") as [id_actor|] eqn:Hai; [|done].
    destruct (actor !! "login") as [login_actor|] eqn:Hal; [|done].
    destruct (actor !! "url") as [url_actor|] eqn:Hau; [|done].
    destruct (event !! "repo") as [[| | | | |repo]|] eqn:Hr; try done.
    destruct (repo !! "url") as [url_repo|] eqn:Hru; [|done].
    destruct (repo !! "id") as [id_repo|] eqn:Hri; [|done].
    destruct (repo !! "name") as [name_repo|] eqn:Hrn; [|done].
    destruct (event !! "payload") as [[| | | | |payload]|] eqn:Hp; try done.
    destruct (event !! "created_at") as [created_at|] eqn:Hc; [|done].
    intros [= <-].
    exists event, actor, repo, payload, type_event, id_actor, login_actor,
      url_actor, url_repo, id_repo, name_repo, created_at.
    by repeat split.
  - intros (event & actor & repo & payload & ? & ? & ? & ? & ? & ? & ? & ?
            & -> & Ht & Ha & Hai & Hal & Hau & Hr & Hru & Hri & Hrn & Hp
            & Hc & ->).
    unfold getitem, get, and_then.
    by rewrite Ht, Ha, Hai, Hal, Hau, Hr, Hru, Hri, Hrn, Hp, Hc.
Qed.






(** ** Converting the archives ([process_files]) *)

Lemma converted_text_ext (o : Outside) (fs fs' : FileSystem) (n : string) :
  (∀ d f, d ≠ DATA_CSV_PATH → read_file d f fs' = read_file d f fs) →
  converted_text o fs' n = converted_text o fs n.
Proof. intros H. unfold converted_text. by rewrite H. Qed.

Lemma converted_to_refl (o : Outside) (state : FileSystem * gset string) :
  converted_to o [] state state.
Proof.
  destruct state as [fs gen]. unfold converted_to. repeat split; try done.
  - intros f c Hn Hc. congruence.
  - auto.
  - by intros n []%elem_of_nil.
Qed.

Lemma converted_to_trans (o : Outside) (names1 names2 : list string)
    (s0 s1 s2 : FileSystem * gset string) :
  converted_to o names1 s0 s1 →
  converted_to o names2 s1 s2 →
  converted_to o (names1 ++ names2) s0 s2.
Proof.
  destruct s0 as [fs0 g0], s1 as [fs1 g1], s2 as [fs2 g2].
  intros (A1 & A2 & A3 & A4 & A5 & A6 & A7) (B1 & B2 & B3 & B4 & B5 & B6 & B7).
  unfold converted_to. repeat split.
  - by rewrite B1, A1.
  - by rewrite B1, A1.
  - intros d f Hd. by rewrite B2, A2.
  - intros f c Hc. by apply B3, A3.
  - intros f c Hnone Hc.
    destruct (read_file DATA_CSV_PATH f fs1) as [c1|] eqn:H1.
    + rewrite (B3 f c1 H1) in Hc. simplify_eq.
      destruct (A4 f c Hnone H1) as (n & Hn & ?). exists n.
      rewrite elem_of_app. auto.
    + destruct (B4 f c H1 Hc) as (n & Hn & He & Hr & Ht). exists n.
      rewrite elem_of_app. repeat split; auto.
      by rewrite <-(converted_text_ext o fs0 fs1).
  - auto.
  - intros f [Hf|(n & Hn & ?)]%B6.
    + apply A6 in Hf as [?|(n & Hn & ?)]; [auto|].
      right. exists n. rewrite elem_of_app. auto.
    + right. exists n. rewrite elem_of_app. auto.
  - intros n [Hn|Hn]%elem_of_app He Hsome.
    + by apply B5, A7.
    + apply B7; [done..|]. destruct Hsome as [c Hc]. exists c. by apply A3.
Qed.

Lemma converted_to_one (o : Outside) (n : string)
    (state : FileSystem * gset string) :
  is_Some (state.1 !! DATA_CSV_PATH) →
  converted_to o [n] state
    (if endswith n ".json.gz" then process_one o n state else state).
Proof.
  destruct state as [fs gen]. simpl. intros Hdir.
  destruct (endswith n ".json.gz") eqn:He.
  2:{ unfold converted_to. repeat split; try done.
      - intros f c Hn Hc. congruence.
      - auto.
      - intros n' ->%list_elem_of_singleton. congruence. }
  unfold process_one.
  set (out := str_replace ".json.gz" ".csv" n).
  destruct (read_file DATA_CSV_PATH out fs) as [c0|] eqn:Hout.
  { unfold converted_to. repeat split; try done.
    - intros f c Hn Hc. congruence.
    - set_solver.
    - intros f [->%elem_of_singleton|?]%elem_of_union; [|auto].
      right. exists n. split; [left|done].
    - intros n' ->%list_elem_of_singleton _ _. set_solver. }
  destruct (read_file DATA_JSON_PATH n fs ≫= gzip_readlines o) as [data|] eqn:Hd.
  2:{ unfold converted_to. repeat split; try done.
      - intros f c Hn Hc. congruence.
      - auto.
      - intros n' ->%list_elem_of_singleton _ [c Hc]. fold out in Hc. congruence. }
  assert (Htext : converted_text o fs n
            = Some (csv_text o ((JString <$> CSV_HEADERS)
                                  :: (write_rows o data []).1))).
  { unfold converted_text. by rewrite Hd. }
  destruct (write_rows o data []) as [rows raised]. simpl in Htext.
  set (text := csv_text o ((JString <$> CSV_HEADERS) :: rows)) in *.
  assert (Hw : ∀ d f,
            read_file d f (write_file DATA_CSV_PATH out text fs)
            = if decide (d = DATA_CSV_PATH ∧ f = out) then Some text
              else read_file d f fs).
  { intros. by apply read_file_write_file. }
  assert (Hgen : converted_to o [n] (fs, gen)
                   (write_file DATA_CSV_PATH out text fs, gen)
                 ∧ converted_to o [n] (fs, gen)
                     (write_file DATA_CSV_PATH out text fs, {[out]} ∪ gen)).
  { unfold converted_to. split; repeat split.
    - by apply is_Some_alter_dir.
    - by apply is_Some_alter_dir.
    - intros d f Hdf. rewrite Hw, decide_False; [done|]. tauto.
    - intros f c Hc. rewrite Hw, decide_False; [done|]. intros [_ ->]. congruence.
    - intros f c Hnone. rewrite Hw. case_decide as Hf; [|congruence].
      destruct Hf as [_ ->]. intros [= <-]. exists n. split; [left|done].
    - done.
    - auto.
    - intros n' ->%list_elem_of_singleton _ [c Hc]. fold out in Hc. congruence.
    - by apply is_Some_alter_dir.
    - by apply is_Some_alter_dir.
    - intros d f Hdf. rewrite Hw, decide_False; [done|]. tauto.
    - intros f c Hc. rewrite Hw, decide_False; [done|]. intros [_ ->]. congruence.
    - intros f c Hnone. rewrite Hw. case_decide as Hf; [|congruence].
      destruct Hf as [_ ->]. intros [= <-]. exists n. split; [left|done].
    - set_solver.
    - intros f [->%elem_of_singleton|?]%elem_of_union; [|auto].
      right. exists n. split; [left|done].
    - intros n' ->%list_elem_of_singleton _ _. set_solver. }
  destruct raised; apply Hgen.
Qed.

Lemma process_fold (o : Outside) (names : list string)
    (state : FileSystem * gset string) :
  is_Some (state.1 !! DATA_CSV_PATH) →
  converted_to o names state
    (foldl (λ state filename,
              if endswith filename ".json.gz"
              then process_one o filename state
              else state) state names).
Proof.
  revert state. induction names as [|n names IH]; intros state Hdir; simpl.
  { apply converted_to_refl. }
  pose proof (converted_to_one o n state Hdir) as Hone.
  eapply (converted_to_trans o [n]); [done|]. apply IH.
  destruct state as [fs gen].
  destruct (if endswith n ".json.gz" then _ else _) as [fs1 gen1].
  destruct Hone as (H1 & _). simpl in *. by apply H1.
Qed.


Lemma elem_of_listing (fs : FileSystem) (directory : string)
    (listing : gmap string string) (n : string) :
  fs !! directory = Some listing →
  n ∈ (map_to_list listing).*1 ↔ is_Some (read_file directory n fs).
Proof.
  intros Hl. unfold read_file. rewrite Hl. simpl.
  rewrite list_elem_of_fmap. split.
  - intros ([n' c] & -> & Hc%elem_of_map_to_list). by exists c.
  - intros [c Hc]. exists (n, c). by rewrite elem_of_map_to_list.
Qed.

Lemma lookup_makedirs_ne (p d : string) (fs : FileSystem) :
  d ≠ p → makedirs p fs !! d = fs !! d.
Proof.
  intros Hd. unfold makedirs. destruct (fs !! p); [done|].
  by rewrite lookup_insert_ne.
Qed.

Lemma process_files_Some (o : Outside) (fs : FileSystem) :
  is_Some (fs !! DATA_JSON_PATH) →
  ∃ fs',
    process_files o fs = Some fs'
    ∧ is_Some (fs' !! DATA_CSV_PATH)
    ∧ (∀ d, d ≠ DATA_CSV_PATH → is_Some (fs' !! d) ↔ is_Some (fs !! d))
    ∧ (∀ d f, d ≠ DATA_CSV_PATH → read_file d f fs' = read_file d f fs)
    ∧ (∀ f c, read_file DATA_CSV_PATH f fs = Some c →
         (read_file DATA_CSV_PATH f fs' = Some c
          ∨ read_file DATA_CSV_PATH f fs' = None)
         ∧ (read_file DATA_CSV_PATH f fs' = None ↔
            endswith f ".csv" = true
            ∧ os_remove o (path_join DATA_CSV_PATH f) = true
            ∧ ¬ ∃ n, is_Some (read_file DATA_JSON_PATH n fs)
                     ∧ endswith n ".json.gz" = true
                     ∧ str_replace ".json.gz" ".csv" n = f))
    ∧ (∀ f c, read_file DATA_CSV_PATH f fs = None →
         read_file DATA_CSV_PATH f fs' = Some c →
         ∃ n, is_Some (read_file DATA_JSON_PATH n fs)
              ∧ endswith n ".json.gz" = true
              ∧ str_replace ".json.gz" ".csv" n = f
              ∧ converted_text o fs n = Some c).
Proof.
  intros [listing Hl]. unfold process_files.
  set (fs0 := makedirs DATA_CSV_PATH fs).
  assert (Hl0 : fs0 !! DATA_JSON_PATH = Some listing).
  { unfold fs0. by rewrite lookup_makedirs_ne. }
  rewrite Hl0. simpl.
  assert (Hdir0 : is_Some (fs0 !! DATA_CSV_PATH)).
  { apply is_Some_makedirs. auto. }
  pose proof (process_fold o (map_to_list listing).*1 (fs0, ∅) Hdir0) as Hfold.
  destruct (foldl _ (fs0, ∅) (map_to_list listing).*1) as [fs1 gen1].
  destruct Hfold as (J1 & J2 & J3 & J4 & _ & J6 & J7).
  assert (Hdir1 : is_Some (fs1 !! DATA_CSV_PATH)) by by apply J1.
  destruct (proj2 (clean_unused_files_spec o DATA_CSV_PATH gen1 ".csv" fs1)
              Hdir1) as (fs' & Hclean & C1 & C2).
  exists fs'. split; [done|]. split; [by apply C1|].
  assert (Hnames : ∀ n, n ∈ (map_to_list listing).*1
                        ↔ is_Some (read_file DATA_JSON_PATH n fs)).
  { intros n. by apply elem_of_listing. }
  split.
  { intros d Hd. rewrite C1, J1. unfold fs0. rewrite is_Some_makedirs.
    naive_solver. }
  split.
  { intros d f Hd. rewrite C2, decide_False by tauto.
    rewrite J2 by done. apply read_file_makedirs. }
  split.
  - intros f c Hc.
    assert (H1 : read_file DATA_CSV_PATH f fs1 = Some c).
    { apply J3. unfold fs0. by rewrite read_file_makedirs. }
    assert (Hgen : f ∈ gen1 ↔
              ∃ n, is_Some (read_file DATA_JSON_PATH n fs)
                   ∧ endswith n ".json.gz" = true
                   ∧ str_replace ".json.gz" ".csv" n = f).
    { split.
      - intros [Hf|(n & Hn & ? & ?)]%J6; [by apply elem_of_empty in Hf|].
        exists n. by rewrite <-Hnames.
      - intros (n & Hn%Hnames & He & <-). apply J7; [done..|].
        unfold fs0. rewrite read_file_makedirs, Hc. by eexists. }
    rewrite C2, H1. rewrite <-Hgen. clear.
    case_decide as Hrm; split; auto; split; try done; tauto.
  - intros f c Hnone. rewrite C2. case_decide as Hrm; [done|]. intros H1.
    destruct (J4 f c) as (n & Hn%Hnames & He & Hr & Ht); [|done|].
    { unfold fs0. by rewrite read_file_makedirs. }
    exists n. repeat split; try done.
    rewrite <-Ht. symmetry. apply converted_text_ext.
    intros d f' _. apply read_file_makedirs.
Qed.



(** ** Cleaning the CSV files ([clean_csv_files]) *)

Lemma cleaned_text_ext (o : Outside) (fs fs' : FileSystem) (f : string) :
  (∀ d f, d ≠ DATA_CLEANED_CSV_PATH → read_file d f fs' = read_file d f fs) →
  cleaned_text o fs' f = cleaned_text o fs f.
Proof. intros H. unfold cleaned_text. by rewrite H. Qed.

Lemma cleaned_to_refl (o : Outside) (state : FileSystem * gset string) :
  cleaned_to o [] state state.
Proof.
  destruct state as [fs pr]. unfold cleaned_to. repeat split; try done.
  - auto.
  - by intros f []%elem_of_nil.
Qed.

Lemma cleaned_to_trans (o : Outside) (names1 names2 : list string)
    (s0 s1 s2 : FileSystem * gset string) :
  cleaned_to o names1 s0 s1 →
  cleaned_to o names2 s1 s2 →
  cleaned_to o (names1 ++ names2) s0 s2.
Proof.
  destruct s0 as [fs0 p0], s1 as [fs1 p1], s2 as [fs2 p2].
  intros (A1 & A2 & A3 & A4 & A5 & A6 & A7) (B1 & B2 & B3 & B4 & B5 & B6 & B7).
  unfold cleaned_to. repeat split.
  - by rewrite B1, A1.
  - by rewrite B1, A1.
  - intros d f Hd. by rewrite B2, A2.
  - intros f c Hc. by apply B3, A3.
  - intros f Hnone. specialize (A4 f Hnone).
    destruct (read_file DATA_CLEANED_CSV_PATH f fs1) as [c1|] eqn:H1.
    + rewrite (B3 f c1 H1). case_decide as Hin; [|done].
      rewrite decide_True; [done|]. rewrite elem_of_app. tauto.
    + rewrite (B4 f H1), (cleaned_text_ext o fs0 fs1) by done.
      destruct (decide (f ∈ names1 ∧ endswith f ".csv" = true)) as [Hin|Hin].
      * rewrite <-A4. by repeat case_decide.
      * clear -Hin. repeat case_decide; try done; exfalso;
          rewrite elem_of_app in *; tauto.
  - auto.
  - intros f [Hf|Hf]%B6; [|rewrite elem_of_app; tauto].
    apply A6 in Hf. rewrite elem_of_app. tauto.
  - intros f Hin He Hsome.
    destruct (decide (f ∈ names2)) as [Hin2|Hin2]; [by apply B7|].
    apply elem_of_app in Hin as [Hin|Hin]; [|done].
    apply B5, A7; [done..|].
    destruct (read_file DATA_CLEANED_CSV_PATH f fs1) as [c1|] eqn:H1;
      [by eexists|].
    rewrite (B4 f H1), decide_False in Hsome by tauto. by destruct Hsome.
Qed.

Lemma cleaned_to_one (o : Outside) (n : string)
    (state : FileSystem * gset string) :
  is_Some (state.1 !! DATA_CLEANED_CSV_PATH) →
  cleaned_to o [n] state
    (if endswith n ".csv" then clean_one o n state else state).
Proof.
  destruct state as [fs pr]. simpl. intros Hdir.
  destruct (endswith n ".csv") eqn:He.
  2:{ unfold cleaned_to. repeat split; try done.
      - intros f Hf. rewrite decide_False; [done|].
        intros [->%list_elem_of_singleton ?]. congruence.
      - auto.
      - intros f ->%list_elem_of_singleton. congruence. }
  unfold clean_one.
  destruct (read_file DATA_CLEANED_CSV_PATH n fs) as [c0|] eqn:Hn.
  { unfold cleaned_to. repeat split; try done.
    - intros f Hf. rewrite decide_False; [done|].
      intros [->%list_elem_of_singleton ?]. congruence.
    - set_solver.
    - intros f [->%elem_of_singleton|?]%elem_of_union; [|auto].
      right. split; [left|done].
    - intros f ->%list_elem_of_singleton _ _. set_solver. }
  assert (Hunchanged : cleaned_text o fs n = None →
                       cleaned_to o [n] (fs, pr) (fs, pr)).
  { intros Ht. unfold cleaned_to. repeat split; try done.
    - intros f Hf. case_decide as Hin; [|done].
      destruct Hin as [->%list_elem_of_singleton _]. congruence.
    - auto.
    - intros f ->%list_elem_of_singleton _ [c Hc]. congruence. }
  unfold cleaned_text in Hunchanged.
  destruct (read_file DATA_CSV_PATH n fs) as [raw|] eqn:Hraw; simpl in *;
    [|by apply Hunchanged].
  destruct (pd_read_csv o raw) as [| |df] eqn:Hread; [by apply Hunchanged..|].
  set (text := to_csv o (clean_data (pd_to_datetime o) df)).
  assert (Hw : ∀ d f,
            read_file d f (write_file DATA_CLEANED_CSV_PATH n text fs)
            = if decide (d = DATA_CLEANED_CSV_PATH ∧ f = n) then Some text
              else read_file d f fs).
  { intros. by apply read_file_write_file. }
  unfold cleaned_to. repeat split.
  - by apply is_Some_alter_dir.
  - by apply is_Some_alter_dir.
  - intros d f Hdf. rewrite Hw, decide_False; [done|]. tauto.
  - intros f c Hc. rewrite Hw, decide_False; [done|]. intros [_ ->]. congruence.
  - intros f Hf. rewrite Hw.
    destruct (decide (f = n)) as [->|Hne].
    + rewrite decide_True by done. rewrite decide_True by (split; [left|done]).
      unfold cleaned_text. by rewrite Hraw; simpl; rewrite Hread.
    + rewrite decide_False by tauto. rewrite decide_False; [done|].
      by intros [?%list_elem_of_singleton _].
  - set_solver.
  - intros f [->%elem_of_singleton|?]%elem_of_union; [|auto].
    right. split; [left|done].
  - intros f ->%list_elem_of_singleton _ _. set_solver.
Qed.

Lemma clean_fold (o : Outside) (names : list string)
    (state : FileSystem * gset string) :
  is_Some (state.1 !! DATA_CLEANED_CSV_PATH) →
  cleaned_to o names state
    (foldl (λ state filename,
              if endswith filename ".csv"
              then clean_one o filename state
              else state) state names).
Proof.
  revert state. induction names as [|n names IH]; intros state Hdir; simpl.
  { apply cleaned_to_refl. }
  pose proof (cleaned_to_one o n state Hdir) as Hone.
  eapply (cleaned_to_trans o [n]); [done|]. apply IH.
  destruct state as [fs pr].
  destruct (if endswith n ".csv" then _ else _) as [fs1 pr1].
  destruct Hone as (H1 & _). simpl in *. by apply H1.
Qed.

Lemma clean_csv_files_Some (o : Outside) (fs : FileSystem) :
  is_Some (fs !! DATA_CSV_PATH) →
  ∃ fs',
    clean_csv_files o fs = Some fs'
    ∧ is_Some (fs' !! DATA_CLEANED_CSV_PATH)
    ∧ (∀ d, d ≠ DATA_CLEANED_CSV_PATH →
            is_Some (fs' !! d) ↔ is_Some (fs !! d))
    ∧ (∀ d f, d ≠ DATA_CLEANED_CSV_PATH →
              read_file d f fs' = read_file d f fs)
    ∧ (∀ f c, read_file DATA_CLEANED_CSV_PATH f fs = Some c →
         read_file DATA_CLEANED_CSV_PATH f fs'
         = if decide (endswith f ".csv" = true
                      ∧ read_file DATA_CSV_PATH f fs = None
                      ∧ os_remove o (path_join DATA_CLEANED_CSV_PATH f) = true)
           then None else Some c)
    ∧ (∀ f, read_file DATA_CLEANED_CSV_PATH f fs = None →
         read_file DATA_CLEANED_CSV_PATH f fs'
         = if endswith f ".csv" then cleaned_text o fs f else None).
Proof.
  intros [listing Hl]. unfold clean_csv_files.
  set (fs0 := makedirs DATA_CLEANED_CSV_PATH fs).
  assert (Hl0 : fs0 !! DATA_CSV_PATH = Some listing).
  { unfold fs0. by rewrite lookup_makedirs_ne. }
  rewrite Hl0. simpl.
  assert (Hdir0 : is_Some (fs0 !! DATA_CLEANED_CSV_PATH)).
  { apply is_Some_makedirs. auto. }
  pose proof (clean_fold o (map_to_list listing).*1 (fs0, ∅) Hdir0) as Hfold.
  destruct (foldl _ (fs0, ∅) (map_to_list listing).*1) as [fs1 pr1].
  destruct Hfold as (K1 & K2 & K3 & K4 & _ & K6 & K7).
  assert (Hdir1 : is_Some (fs1 !! DATA_CLEANED_CSV_PATH)) by by apply K1.
  destruct (proj2 (clean_unused_files_spec o DATA_CLEANED_CSV_PATH pr1 ".csv"
                     fs1) Hdir1) as (fs' & Hclean & C1 & C2).
  exists fs'. split; [done|]. split; [by apply C1|].
  assert (Hnames : ∀ n, n ∈ (map_to_list listing).*1
                        ↔ is_Some (read_file DATA_CSV_PATH n fs)).
  { intros n. by apply elem_of_listing. }
  assert (Htext : ∀ f, cleaned_text o fs0 f = cleaned_text o fs f).
  { intros f. apply cleaned_text_ext. intros d f' _. apply read_file_makedirs. }
  split.
  { intros d Hd. rewrite C1, K1. unfold fs0. rewrite is_Some_makedirs.
    naive_solver. }
  split.
  { intros d f Hd. rewrite C2, decide_False by tauto.
    rewrite K2 by done. apply read_file_makedirs. }
  split.
  - intros f c Hc.
    assert (H1 : read_file DATA_CLEANED_CSV_PATH f fs1 = Some c).
    { apply K3. unfold fs0. by rewrite read_file_makedirs. }
    assert (Hpr : f ∈ pr1 ↔
              is_Some (read_file DATA_CSV_PATH f fs) ∧ endswith f ".csv" = true).
    { rewrite <-Hnames. split.
      - intros [Hf|?]%K6; [by apply elem_of_empty in Hf|done].
      - intros [Hin He]. apply K7; [done..|]. rewrite H1. by eexists. }
    rewrite C2, H1. rewrite <-not_eq_None_Some in Hpr. clear -Hpr.
    repeat case_decide; try done; exfalso; tauto.
  - intros f Hnone.
    assert (H1 : read_file DATA_CLEANED_CSV_PATH f fs1
                 = if decide (f ∈ (map_to_list listing).*1
                              ∧ endswith f ".csv" = true)
                   then cleaned_text o fs f else None).
    { rewrite <-Htext. apply K4. unfold fs0. by rewrite read_file_makedirs. }
    assert (H2 : read_file DATA_CLEANED_CSV_PATH f fs1
                 = if endswith f ".csv" then cleaned_text o fs f else None).
    { rewrite H1. destruct (endswith f ".csv") eqn:He.
      - case_decide as Hin; [done|].
        unfold cleaned_text.
        destruct (read_file DATA_CSV_PATH f fs) as [raw|] eqn:Hraw; [|done].
        exfalso. apply Hin. split; [|done]. apply Hnames. by eexists.
      - rewrite decide_False; [done|]. by intros [_ ?]. }
    rewrite C2.
    destruct (decide (DATA_CLEANED_CSV_PATH = DATA_CLEANED_CSV_PATH ∧ _))
      as [Hrm|Hrm]; [|done].
    destruct Hrm as (_ & _ & Hf & _). rewrite <-H2.
    destruct (read_file DATA_CLEANED_CSV_PATH f fs1) as [c|] eqn:Hc; [|done].
    exfalso. apply Hf.
    case_decide as Hin; [|done]. destruct Hin as [Hin He].
    apply K7; [done..|]. rewrite Hc. by eexists.
Qed.

(** X17: [clean_csv_files] raises when the directory of the raw CSV files
    does not exist and returns otherwise, leaving every directory but the
    one of the cleaned files as it is.  A cleaned file that is already
    there is never computed again: it keeps its content, unless its name
    ends with [.csv], there is no raw CSV file of that name, and
    [os.remove] succeeds, in which case it is removed.  A name without
    cleaned file gets one exactly when it ends with [.csv] and the raw
    file of that name is read as a table with a [type_event] column; the
    file then holds what [clean_data] returns on that table. *)
Theorem clean_csv_files_spec (o : Outside) (fs : FileSystem) :
  (fs !! DATA_CSV_PATH = None → clean_csv_files o fs = None)
  ∧ (is_Some (fs !! DATA_CSV_PATH) →
     ∃ fs',
       clean_csv_files o fs = Some fs'
       ∧ is_Some (fs' !! DATA_CLEANED_CSV_PATH)
       ∧ (∀ d, d ≠ DATA_CLEANED_CSV_PATH →
               is_Some (fs' !! d) ↔ is_Some (fs !! d))
       ∧ (∀ d f, d ≠ DATA_CLEANED_CSV_PATH →
                 read_file d f fs' = read_file d f fs)
       ∧ (∀ f c, read_file DATA_CLEANED_CSV_PATH f fs = Some c →
            read_file DATA_CLEANED_CSV_PATH f fs'
            = if decide (endswith f ".csv" = true
                         ∧ read_file DATA_CSV_PATH f fs = None
                         ∧ os_remove o (path_join DATA_CLEANED_CSV_PATH f)
                           = true)
              then None else Some c)
       ∧ (∀ f, read_file DATA_CLEANED_CSV_PATH f fs = None →
            read_file DATA_CLEANED_CSV_PATH f fs'
            = match (if endswith f ".csv"
                     then read_file DATA_CSV_PATH f fs else None) with
              | Some raw =>
                  match pd_read_csv o raw with
                  | Events df =>
                      Some (to_csv o (clean_data (pd_to_datetime o) df))
                  | _ => None
                  end
              | None => None
              end)).
Proof.
  split.
  { intros Hnone. unfold clean_csv_files.
    by rewrite lookup_makedirs_ne, Hnone. }
  intros Hdir.
  destruct (clean_csv_files_Some o fs Hdir)
    as (fs' & Hrun & H1 & H2 & H3 & H4 & H5).
  exists fs'. do 5 (split; [done|]).
  intros f Hf. rewrite (H5 f Hf). unfold cleaned_text.
  destruct (endswith f ".csv"); [|done].
  by destruct (read_file DATA_CSV_PATH f fs).
Qed.

(** X18: [main] of the data collection never raises, whatever the file
    system and the outside: [download_files] creates the directory that
    [process_files] lists, and [process_files] the one that
    [clean_csv_files] lists. *)
Theorem main_never_raises (o : Outside) (fs : FileSystem) :
  is_Some (main o fs).
Proof.
  unfold main.
  destruct (download_files_Some o fs) as (fs1 & -> & Hjson). simpl.
  destruct (process_files_Some o fs1 Hjson) as (fs2 & -> & Hcsv & _). simpl.
  destruct (clean_csv_files_Some o fs2 Hcsv) as (fs3 & -> & _). by eexists.
Qed.

End data_collection_facts.
